(** * Build version information: the [version] package

    A shallow embedding of [version/version.go] together with models of the
    Go standard-library functions the package calls ([strings.Split],
    [strings.SplitN], [strings.TrimSpace], [fmt.Sprintf], [fmt.Errorf],
    [filepath.Base]) and the properties of the legacy parser and of the
    renderers.

    Go strings are byte sequences: they are modelled by [string], whose
    characters are the 8-bit [ascii] values.  Go's [int] indexes are [nat]
    where the library keeps them non-negative and [Z] where it relies on a
    negative value; a result of [-1] ("not found") is [None]. *)

From Stdlib Require Import String Ascii List ZArith Lia Bool Arith.
Import ListNotations.

Local Open Scope string_scope.
Local Open Scope list_scope.
Local Open Scope nat_scope.

(** ** Byte strings *)

(** The numeric value of a byte. *)
Definition byte (c : ascii) : Z := Z.of_N (N_of_ascii c).

(** [s[i:]] *)
Fixpoint str_drop (i : nat) (s : string) : string :=
  match i, s with
  | O, _ => s
  | S _, EmptyString => EmptyString
  | S k, String _ t => str_drop k t
  end.

(** [s[:i]] *)
Fixpoint str_take (i : nat) (s : string) : string :=
  match i, s with
  | O, _ => EmptyString
  | S _, EmptyString => EmptyString
  | S k, String c t => String c (str_take k t)
  end.

(** [s[i]] as a number; the callers below only read inside the string. *)
Definition idx (s : string) (i : Z) : Z :=
  if (i <? 0)%Z then 0%Z
  else match String.get (Z.to_nat i) s with
       | Some c => byte c
       | None => 0%Z
       end.

(** The byte [c] occurs in [s]. *)
Fixpoint has_byte (c : ascii) (s : string) : bool :=
  match s with
  | EmptyString => false
  | String d t => Ascii.eqb d c || has_byte c t
  end.

(** The line feed, the colon and the slash as bytes. *)
Definition LF : ascii := "010"%char.
Definition COLON : ascii := ":"%char.
Definition SLASH : ascii := "/"%char.

(** ** Package [unicode/utf8] *)
Module utf8.

Definition RuneError : Z := 0xFFFD%Z.
Definition RuneSelf : Z := 0x80%Z.
Definition UTFMax : Z := 4%Z.

Definition locb : Z := 0x80%Z.
Definition hicb : Z := 0xBF%Z.
Definition maskx : Z := 0x3F%Z.
Definition mask2 : Z := 0x1F%Z.
Definition mask3 : Z := 0x0F%Z.
Definition mask4 : Z := 0x07%Z.

(** Information bytes of the table [first]: the low three bits are the
    length of the sequence, the high four index [acceptRanges]. *)
Definition xx : Z := 0xF1%Z.
Definition as_ : Z := 0xF0%Z.
Definition s1 : Z := 0x02%Z.
Definition s2 : Z := 0x13%Z.
Definition s3 : Z := 0x03%Z.
Definition s4 : Z := 0x23%Z.
Definition s5 : Z := 0x34%Z.
Definition s6 : Z := 0x04%Z.
Definition s7 : Z := 0x44%Z.

(** The table [first], by ranges of the leading byte. *)
Definition first (b : Z) : Z :=
  if (b <? 0x80)%Z then as_
  else if (b <? 0xC2)%Z then xx
  else if (b <? 0xE0)%Z then s1
  else if (b =? 0xE0)%Z then s2
  else if (b <? 0xED)%Z then s3
  else if (b =? 0xED)%Z then s4
  else if (b <? 0xF0)%Z then s3
  else if (b =? 0xF0)%Z then s5
  else if (b <? 0xF4)%Z then s6
  else if (b =? 0xF4)%Z then s7
  else xx.

(** The table [acceptRanges]: the bounds of the second byte. *)
Definition acceptRanges (i : Z) : Z * Z :=
  match i with
  | 0%Z => (locb, hicb)
  | 1%Z => (0xA0%Z, hicb)
  | 2%Z => (locb, 0x9F%Z)
  | 3%Z => (0x90%Z, hicb)
  | 4%Z => (locb, 0x8F%Z)
  | _ => (0%Z, 0%Z)
  end.

(** [utf8.DecodeRuneInString]: the first rune of [s] and its width in
    bytes; [(RuneError, 0)] on the empty string and [(RuneError, 1)] on an
    invalid encoding. *)
Definition DecodeRuneInString (s : string) : Z * nat :=
  let n := String.length s in
  if n <? 1 then (RuneError, 0)
  else
    let s0 := idx s 0 in
    let x := first s0 in
    if (as_ <=? x)%Z then
      (* the mask of the source: all ones exactly when [x = xx] *)
      ((if Z.testbit x 0 then RuneError else s0), 1)
    else
      let sz := Z.to_nat (Z.land x 7) in
      let accept := acceptRanges (Z.shiftr x 4) in
      if n <? sz then (RuneError, 1)
      else
        let b1 := idx s 1 in
        if ((b1 <? fst accept) || (snd accept <? b1))%Z then (RuneError, 1)
        else if sz <=? 2 then
          (Z.lor (Z.shiftl (Z.land s0 mask2) 6) (Z.land b1 maskx), 2)
        else
          let b2 := idx s 2 in
          if ((b2 <? locb) || (hicb <? b2))%Z then (RuneError, 1)
          else if sz <=? 3 then
            (Z.lor (Z.lor (Z.shiftl (Z.land s0 mask3) 12)
                          (Z.shiftl (Z.land b1 maskx) 6))
                   (Z.land b2 maskx), 3)
          else
            let b3 := idx s 3 in
            if ((b3 <? locb) || (hicb <? b3))%Z then (RuneError, 1)
            else
              (Z.lor (Z.lor (Z.lor (Z.shiftl (Z.land s0 mask4) 18)
                                   (Z.shiftl (Z.land b1 maskx) 12))
                            (Z.shiftl (Z.land b2 maskx) 6))
                     (Z.land b3 maskx), 4).

(** [utf8.RuneStart]: the byte is not a continuation byte. *)
Definition RuneStart (b : Z) : bool :=
  negb (Z.land b 0xC0 =? 0x80)%Z.

(** The backward scan of [DecodeLastRuneInString]:
    [for start--; start >= lim; start-- { if RuneStart(s[start]) { break } }],
    entered with [start] already decremented.  It runs at most [UTFMax]
    times. *)
Fixpoint scanBack (fuel : nat) (s : string) (start lim : Z) : Z :=
  match fuel with
  | O => start
  | S k =>
      if (start <? lim)%Z then start
      else if RuneStart (idx s start) then start
      else scanBack k s (start - 1)%Z lim
  end.

(** [utf8.DecodeLastRuneInString]: the last rune of [s] and its width. *)
Definition DecodeLastRuneInString (s : string) : Z * nat :=
  let end_ := String.length s in
  if end_ =? 0 then (RuneError, 0)
  else
    let r := idx s (Z.of_nat end_ - 1) in
    if (r <? RuneSelf)%Z then (r, 1)
    else
      let lim := Z.max 0 (Z.of_nat end_ - UTFMax) in
      let start := scanBack (Z.to_nat UTFMax) s (Z.of_nat end_ - 2) lim in
      let start := Z.to_nat (Z.max 0 start) in
      let '(r, size) := DecodeRuneInString (str_drop start s) in
      if start + size =? end_ then (r, size) else (RuneError, 1).

(** The loop of [utf8.RuneCountInString]: [skip] bytes of the rune being
    read are still to be passed. *)
Fixpoint runeCount (skip : nat) (s : string) : nat :=
  match s with
  | EmptyString => O
  | String _ t =>
      match skip with
      | S k => runeCount k t
      | O => S (runeCount (snd (DecodeRuneInString s) - 1) t)
      end
  end.

Definition RuneCountInString (s : string) : nat := runeCount 0 s.

End utf8.

(** ** Package [unicode] *)
Module unicode.

Definition MaxLatin1 : Z := 0xFF%Z.

(** The range table [White_Space] above Latin-1. *)
Definition White_Space_excludingLatin (r : Z) : bool :=
  ((r =? 0x1680) || ((0x2000 <=? r) && (r <=? 0x200A))
   || ((0x2028 <=? r) && (r <=? 0x2029))
   || (r =? 0x202F) || (r =? 0x205F) || (r =? 0x3000))%Z.

(** [unicode.IsSpace] *)
Definition IsSpace (r : Z) : bool :=
  if (r <=? MaxLatin1)%Z then
    ((r =? 9) || (r =? 10) || (r =? 11) || (r =? 12) || (r =? 13)
     || (r =? 32) || (r =? 0x85) || (r =? 0xA0))%Z
  else White_Space_excludingLatin r.

End unicode.

(** ** Package [strings] *)
Module strings.

(** [strings.HasPrefix] *)
Fixpoint HasPrefix (s prefix : string) {struct prefix} : bool :=
  match prefix with
  | EmptyString => true
  | String p ps =>
      match s with
      | EmptyString => false
      | String c cs => Ascii.eqb c p && HasPrefix cs ps
      end
  end.

(** [strings.Index]: the index of the first instance of [substr] in [s]. *)
Fixpoint Index (s substr : string) : option nat :=
  if HasPrefix s substr then Some 0
  else match s with
       | EmptyString => None
       | String _ t => option_map S (Index t substr)
       end.

(** The loop of [strings.Count] for a non-empty [substr]: instances are
    counted without overlap, [skip] bytes of the instance just counted are
    still to be passed. *)
Fixpoint countFrom (skip : nat) (s substr : string) : nat :=
  match s with
  | EmptyString => 0
  | String _ t =>
      match skip with
      | S k => countFrom k t substr
      | O =>
          if HasPrefix s substr
          then S (countFrom (String.length substr - 1) t substr)
          else countFrom 0 t substr
      end
  end.

(** [strings.Count] *)
Definition Count (s substr : string) : nat :=
  if String.length substr =? 0 then utf8.RuneCountInString s + 1
  else countFrom 0 s substr.

(** The loop of [explode]: [k] more single-rune pieces, then the rest. *)
Fixpoint explodeLoop (k : nat) (s : string) : list string :=
  match k with
  | O => [s]
  | S k' =>
      let size := snd (utf8.DecodeRuneInString s) in
      str_take size s :: explodeLoop k' (str_drop size s)
  end.

(** [explode]: [s] cut into its UTF-8 sequences, at most [n] of them. *)
Definition explode (s : string) (n : Z) : list string :=
  let l := Z.of_nat (utf8.RuneCountInString s) in
  let n := if ((n <? 0) || (l <? n))%Z then l else n in
  if (0 <? n)%Z then explodeLoop (Z.to_nat (n - 1)) s else [].

(** The loop of [genSplit]: at most [k] cuts at [sep], then the rest. *)
Fixpoint splitLoop (k : nat) (s sep : string) (sepSave : nat) : list string :=
  match k with
  | O => [s]
  | S k' =>
      match Index s sep with
      | None => [s]
      | Some m =>
          str_take (m + sepSave) s
          :: splitLoop k' (str_drop (m + String.length sep) s) sep sepSave
      end
  end.

(** [genSplit]: [s] cut at the instances of [sep] into at most [n] pieces
    ([n < 0]: all of them).  The nil slice is the empty list. *)
Definition genSplit (s sep : string) (sepSave : nat) (n : Z) : list string :=
  if (n =? 0)%Z then []
  else if String.length sep =? 0 then explode s n
  else
    let n := if (n <? 0)%Z then (Z.of_nat (Count s sep) + 1)%Z else n in
    let n := if (Z.of_nat (String.length s) + 1 <? n)%Z
             then (Z.of_nat (String.length s) + 1)%Z else n in
    splitLoop (Z.to_nat (n - 1)) s sep sepSave.

(** [strings.Split] *)
Definition Split (s sep : string) : list string := genSplit s sep 0 (-1).

(** [strings.SplitN] *)
Definition SplitN (s sep : string) (n : Z) : list string := genSplit s sep 0 n.

(** The loop [for i, r := range s] of [indexFunc]: the index of the first
    rune [r] with [f r = truth]; [skip] bytes of the rune just read are
    still to be passed. *)
Fixpoint indexFuncFrom (skip : nat) (s : string) (f : Z -> bool) (truth : bool)
  : option nat :=
  match s with
  | EmptyString => None
  | String _ t =>
      match skip with
      | S k => option_map S (indexFuncFrom k t f truth)
      | O =>
          let '(r, size) := utf8.DecodeRuneInString s in
          if Bool.eqb (f r) truth then Some 0
          else option_map S (indexFuncFrom (size - 1) t f truth)
      end
  end.

(** [indexFunc] *)
Definition indexFunc (s : string) (f : Z -> bool) (truth : bool) : option nat :=
  indexFuncFrom 0 s f truth.

(** The loop of [lastIndexFunc], from the index [i] downwards; every turn
    lowers [i], so [fuel = i] turns are enough. *)
Fixpoint lastIndexFuncFrom (fuel : nat) (s : string) (i : nat)
  (f : Z -> bool) (truth : bool) : option nat :=
  match fuel with
  | O => None
  | S fuel' =>
      if i =? 0 then None
      else
        let '(r, size) := utf8.DecodeLastRuneInString (str_take i s) in
        let i := i - size in
        if Bool.eqb (f r) truth then Some i
        else lastIndexFuncFrom fuel' s i f truth
  end.

(** [lastIndexFunc] *)
Definition lastIndexFunc (s : string) (f : Z -> bool) (truth : bool)
  : option nat :=
  lastIndexFuncFrom (String.length s) s (String.length s) f truth.

(** [strings.TrimLeftFunc] *)
Definition TrimLeftFunc (s : string) (f : Z -> bool) : string :=
  match indexFunc s f false with
  | None => EmptyString
  | Some i => str_drop i s
  end.

(** [strings.TrimRightFunc] *)
Definition TrimRightFunc (s : string) (f : Z -> bool) : string :=
  match lastIndexFunc s f false with
  | Some i =>
      if (utf8.RuneSelf <=? idx s (Z.of_nat i))%Z
      then str_take (i + snd (utf8.DecodeRuneInString (str_drop i s))) s
      else str_take (i + 1) s
  | None => str_take 0 s
  end.

(** [strings.TrimFunc] *)
Definition TrimFunc (s : string) (f : Z -> bool) : string :=
  TrimRightFunc (TrimLeftFunc s f) f.

(** [strings.TrimSpace]: [s] without its leading and trailing white space,
    as defined by Unicode. *)
Definition TrimSpace (s : string) : string := TrimFunc s unicode.IsSpace.

(** The bytes of the table [asciiSpace]: tab, line feed, vertical tab,
    form feed, carriage return and space. *)
Definition asciiSpace : list ascii :=
  ["009"%char; "010"%char; "011"%char; "012"%char; "013"%char; " "%char].

(** [strings.Join] *)
Definition Join (elems : list string) (sep : string) : string :=
  String.concat sep elems.

End strings.

(** ** Package [fmt] *)
Module fmt.

(** The operands left over: [%!(EXTRA string=a, string=b)]. *)
Fixpoint extraOperands (a : list string) : string :=
  match a with
  | [] => EmptyString
  | [x] => "string=" ++ x
  | x :: a' => "string=" ++ x ++ ", " ++ extraOperands a'
  end.

Definition extra (a : list string) : string :=
  match a with
  | [] => EmptyString
  | _ => "%!(EXTRA " ++ extraOperands a ++ ")"
  end.

(** [fmt.Sprintf] on the directives this package uses.  The operands are
    strings; the verbs [%v] and [%s] print the operand as it is and [%%]
    prints a percent sign; a missing operand, a percent sign at the end and
    operands left over print as [fmt] prints them.  Flags, width, precision
    and argument indexes do not occur in the package and are not modelled:
    any other verb byte prints in the bad-verb form. *)
Fixpoint Sprintf (format : string) (a : list string) : string :=
  match format with
  | EmptyString => extra a
  | String "%" EmptyString => "%!(NOVERB)" ++ extra a
  | String "%" (String verb rest) =>
      if Ascii.eqb verb "%" then String "%" (Sprintf rest a)
      else
        match a with
        | [] => "%!" ++ String verb "(MISSING)" ++ Sprintf rest []
        | x :: a' =>
            (if Ascii.eqb verb "v" || Ascii.eqb verb "s" then x
             else "%!" ++ String verb "(string=" ++ x ++ ")")
            ++ Sprintf rest a'
        end
  | String c rest => String c (Sprintf rest a)
  end.

(** An [error] value is the message it carries; [nil] is [None]. *)
Definition error : Type := string.

(** [fmt.Errorf] *)
Definition Errorf (format : string) (a : list string) : error :=
  Sprintf format a.

End fmt.

(** ** Package [path/filepath], on Unix *)
Module filepath.

Definition Separator : ascii := SLASH.

(** [os.IsPathSeparator] *)
Definition IsPathSeparator (c : ascii) : bool := Ascii.eqb c Separator.

(** [for len(path) > 0 && os.IsPathSeparator(path[len(path)-1])
       { path = path[0 : len(path)-1] }] *)
Fixpoint stripTrailingSeparators (path : string) : string :=
  match path with
  | EmptyString => EmptyString
  | String c t =>
      match stripTrailingSeparators t with
      | EmptyString =>
          if IsPathSeparator c then EmptyString else String c EmptyString
      | t' => String c t'
      end
  end.

(** The index [i] the downward scan
    [for i >= 0 && !os.IsPathSeparator(path[i]) { i-- }] stops at. *)
Fixpoint lastSeparator (path : string) : option nat :=
  match path with
  | EmptyString => None
  | String c t =>
      match lastSeparator t with
      | Some i => Some (S i)
      | None => if IsPathSeparator c then Some 0 else None
      end
  end.

(** [filepath.VolumeName]: empty on Unix. *)
Definition VolumeName (path : string) : string := EmptyString.

(** [filepath.Base]: the last element of [path]. *)
Definition Base (path : string) : string :=
  if (path =? "")%string then "."
  else
    let path := stripTrailingSeparators path in
    let path := str_drop (String.length (VolumeName path)) path in
    let path := match lastSeparator path with
                | Some i => str_drop (i + 1) path
                | None => path
                end in
    if (path =? "")%string then String Separator EmptyString else path.

End filepath.

(** ** Package [encoding/json]: the names of the members of an object *)
Module json.

(** What [reflect] shows of a struct field of string type: its Go name, its
    struct tag as the [key:"value"] pairs that [StructTag.Get] reads, and
    the string it holds in a value of the struct type [T]. *)
Record StructField (T : Type) : Type := {
  Name : string;
  Tag : list (string * string);
  Value : T -> string
}.
Arguments Name {T} _.
Arguments Tag {T} _.
Arguments Value {T} _.

(** [StructTag.Get] *)
Fixpoint Get (tag : list (string * string)) (key : string) : string :=
  match tag with
  | [] => EmptyString
  | (k, v) :: tag' => if (k =? key)%string then v else Get tag' key
  end.

(** [parseTag]: the name before the first comma and the options after it. *)
Fixpoint parseTag (tag : string) : string * string :=
  match tag with
  | EmptyString => (EmptyString, EmptyString)
  | String c t =>
      if Ascii.eqb c "," then (EmptyString, t)
      else let '(name, opts) := parseTag t in (String c name, opts)
  end.

(** [tagOptions.Contains]: [optionName] is one of the comma-separated
    options. *)
Definition Contains (opts optionName : string) : bool :=
  existsb (fun o => (o =? optionName)%string) (strings.Split opts ",").

(** [isValidTag] on ASCII names: letters, digits and the punctuation
    [!#$%&()*+-./:;<=>?@[]^_{|}~ ] are allowed. *)
Definition isValidTag (s : string) : bool :=
  negb (s =? "")%string &&
  forallb (fun c =>
    let b := byte c in
    has_byte c "!#$%&()*+-./:;<=>?@[]^_{|}~ "
    || ((65 <=? b) && (b <=? 90))%Z || ((97 <=? b) && (b <=? 122))%Z
    || ((48 <=? b) && (b <=? 57))%Z)
    (list_ascii_of_string s).

(** The name under which [typeFields] lists a field, [None] for a field
    that is left out ([json:"-"]). *)
Definition fieldName {T} (sf : StructField T) : option string :=
  let tag := Get (Tag sf) "json" in
  if (tag =? "-")%string then None
  else
    let name := fst (parseTag tag) in
    let name := if isValidTag name then name else EmptyString in
    Some (if (name =? "")%string then Name sf else name).

(** The members of the object [Marshal] writes for a struct value, in the
    order of the fields: the external name and the string held.  A field
    with the option [omitempty] is left out when it holds the empty string.
    The fields below have distinct names, so the rule of [typeFields] for
    fields that share a name does not come into play. *)
Definition objectMembers {T} (fields : list (StructField T)) (v : T)
  : list (string * string) :=
  flat_map (fun sf =>
    match fieldName sf with
    | None => []
    | Some name =>
        if Contains (snd (parseTag (Get (Tag sf) "json"))) "omitempty"
           && (Value sf v =? "")%string
        then []
        else [(name, Value sf v)]
    end) fields.

End json.

(** ** Package [version] *)
Module version.

(** The fields populated at build time using [-ldflags -X]. *)
Definition buildVersion : string := "unknown".
Definition buildGitRevision : string := "unknown".
Definition buildStatus : string := "unknown".
Definition buildTag : string := "unknown".
Definition buildHub : string := "unknown".
Definition buildVendor : string := "oss".

(** [BuildInfo] describes version information about the binary build. *)
Record BuildInfo : Type := {
  Version : string;
  GitRevision : string;
  GolangVersion : string;
  BuildStatus : string;
  GitTag : string;
  Vendor : string
}.

(** The struct tags of [BuildInfo]. *)
Definition BuildInfo_fields : list (json.StructField BuildInfo) :=
  [ {| json.Name := "Version"; json.Tag := [("json", "version")];
       json.Value := Version |};
    {| json.Name := "GitRevision"; json.Tag := [("json", "revision")];
       json.Value := GitRevision |};
    {| json.Name := "GolangVersion"; json.Tag := [("json", "golang_version")];
       json.Value := GolangVersion |};
    {| json.Name := "BuildStatus"; json.Tag := [("json", "status")];
       json.Value := BuildStatus |};
    {| json.Name := "GitTag"; json.Tag := [("json", "tag")];
       json.Value := GitTag |};
    {| json.Name := "Vendor"; json.Tag := [("json", "vendor")];
       json.Value := Vendor |} ].

(** [BuildInfo{}]: the zero value. *)
Definition BuildInfo_zero : BuildInfo :=
  {| Version := ""; GitRevision := ""; GolangVersion := "";
     BuildStatus := ""; GitTag := ""; Vendor := "" |}.

(** [DockerBuildInfo] contains and exposes [Hub: buildHub] and
    [Tag: buildVersion]. *)
Record DockerBuildInfo : Type := {
  Hub : string;
  Tag : string
}.

(** The [switch fields[0]] of [NewBuildInfoFromOldString]: the assignment
    to [res]; an unknown field is skipped. *)
Definition setField (key value : string) (res : BuildInfo) : BuildInfo :=
  if (key =? "Version")%string then
    {| Version := value; GitRevision := GitRevision res;
       GolangVersion := GolangVersion res; BuildStatus := BuildStatus res;
       GitTag := GitTag res; Vendor := Vendor res |}
  else if (key =? "GitRevision")%string then
    {| Version := Version res; GitRevision := value;
       GolangVersion := GolangVersion res; BuildStatus := BuildStatus res;
       GitTag := GitTag res; Vendor := Vendor res |}
  else if (key =? "GolangVersion")%string then
    {| Version := Version res; GitRevision := GitRevision res;
       GolangVersion := value; BuildStatus := BuildStatus res;
       GitTag := GitTag res; Vendor := Vendor res |}
  else if (key =? "BuildStatus")%string then
    {| Version := Version res; GitRevision := GitRevision res;
       GolangVersion := GolangVersion res; BuildStatus := value;
       GitTag := GitTag res; Vendor := Vendor res |}
  else if (key =? "GitTag")%string then
    {| Version := Version res; GitRevision := GitRevision res;
       GolangVersion := GolangVersion res; BuildStatus := BuildStatus res;
       GitTag := value; Vendor := Vendor res |}
  else res.

(** The loop [for _, line := range lines] of [NewBuildInfoFromOldString],
    with the record [res] built so far. *)
Fixpoint parseLines (lines : list string) (res : BuildInfo)
  : BuildInfo * option fmt.error :=
  match lines with
  | [] => (res, None)
  | line :: lines' =>
      if (strings.TrimSpace line =? "")%string then parseLines lines' res
      else
        let fields := strings.SplitN line ":" 2 in
        match fields with
        | [] => parseLines lines' res
        | _ :: _ =>
            if negb (List.length fields =? 2) then
              (BuildInfo_zero,
               Some (fmt.Errorf
                       "invalid BuildInfo input, field '%s' is not valid"
                       [nth 0 fields EmptyString]))
            else
              let value := strings.TrimSpace (nth 1 fields EmptyString) in
              parseLines lines' (setField (nth 0 fields EmptyString) value res)
        end
  end.

(** [NewBuildInfoFromOldString] creates a [BuildInfo] struct based on the
    output of previous Istio components' [-- version] output. *)
Definition NewBuildInfoFromOldString (oldOutput : string)
  : BuildInfo * option fmt.error :=
  let res := BuildInfo_zero in
  let lines := strings.Split oldOutput (String LF EmptyString) in
  parseLines lines res.

(** [BuildInfo.String] produces a single-line version info. *)
Definition BuildInfo_String (b : BuildInfo) : string :=
  fmt.Sprintf "%v-%v-%v" [Version b; GitRevision b; BuildStatus b].

(** [adjustCommand] returns the last component of the OS-specific command
    path for use in User-Agent. *)
Definition adjustCommand (p : string) : string :=
  if String.length p =? 0 then "unknown" else filepath.Base p.

(** What [UserAgent] reads of the running process: [os.Args],
    [runtime.GOOS] and [runtime.GOARCH]. *)
Record Process : Type := {
  Args : list string;
  GOOS : string;
  GOARCH : string
}.

(** [BuildInfo.UserAgent] produces a UserAgent string that can be used to
    self identify the istio binary.  [os.Args[0]] panics on an empty
    [os.Args]: the result is then [None]. *)
Definition BuildInfo_UserAgent (b : BuildInfo) (p : Process) : option string :=
  match Args p with
  | [] => None
  | argv0 :: _ =>
      Some (fmt.Sprintf "%v/%v (%v/%v) istio/%v"
              [adjustCommand argv0; Version b; GOOS p; GOARCH p; Vendor b])
  end.

(** The value [init] gives [Info], with the string [runtime.Version()]. *)
Definition Info (runtimeVersion : string) : BuildInfo :=
  {| Version := buildVersion; GitRevision := buildGitRevision;
     GolangVersion := runtimeVersion; BuildStatus := buildStatus;
     GitTag := buildTag; Vendor := buildVendor |}.

(** The value [init] gives [DockerInfo]. *)
Definition DockerInfo : DockerBuildInfo :=
  {| Hub := buildHub; Tag := buildVersion |}.

End version.

(** ** The legacy text format, as the specification describes it *)
Module legacy.

(** The text before the first byte [c] of [s] and the text after it. *)
Fixpoint cut (c : ascii) (s : string) : option (string * string) :=
  match s with
  | EmptyString => None
  | String d t =>
      if Ascii.eqb d c then Some (EmptyString, t)
      else match cut c t with
           | Some (k, v) => Some (String d k, v)
           | None => None
           end
  end.

(** A line is blank when nothing is left of it after trimming. *)
Definition blank (line : string) : bool :=
  (strings.TrimSpace line =? "")%string.

(** The key of a line: the text before its first colon, untrimmed. *)
Definition lineKey (line : string) : option string :=
  option_map fst (cut COLON line).

(** The [Key: value] entries of a text: one for every line that is not
    blank and has a colon, with the key as written and the value trimmed. *)
Fixpoint entries (lines : list string) : list (string * string) :=
  match lines with
  | [] => []
  | line :: lines' =>
      if blank line then entries lines'
      else match cut COLON line with
           | Some (k, v) => (k, strings.TrimSpace v) :: entries lines'
           | None => entries lines'
           end
  end.

(** The value of the last entry with the key [key]. *)
Fixpoint lastValue (key : string) (es : list (string * string))
  : option string :=
  match es with
  | [] => None
  | (k, v) :: es' =>
      match lastValue key es' with
      | Some w => Some w
      | None => if (k =? key)%string then Some v else None
      end
  end.

(** The field a text gives for [key] over the value [dflt] the record held
    before: the value of the last entry with that key, [dflt] when there is
    none. *)
Definition fieldFrom (key : string) (lines : list string) (dflt : string)
  : string :=
  match lastValue key (entries lines) with
  | Some v => v
  | None => dflt
  end.

(** The record a text makes of the record [res]: the five recognized keys,
    the vendor untouched. *)
Definition recordFrom (lines : list string) (res : version.BuildInfo)
  : version.BuildInfo :=
  {| version.Version := fieldFrom "Version" lines (version.Version res);
     version.GitRevision :=
       fieldFrom "GitRevision" lines (version.GitRevision res);
     version.GolangVersion :=
       fieldFrom "GolangVersion" lines (version.GolangVersion res);
     version.BuildStatus :=
       fieldFrom "BuildStatus" lines (version.BuildStatus res);
     version.GitTag := fieldFrom "GitTag" lines (version.GitTag res);
     version.Vendor := version.Vendor res |}.

(** The record a text describes, from the zero record. *)
Definition recordOf (lines : list string) : version.BuildInfo :=
  recordFrom lines version.BuildInfo_zero.

(** The recognized keys, and the field each one names. *)
Definition recognized : list string :=
  ["Version"; "GitRevision"; "GolangVersion"; "BuildStatus"; "GitTag"].

Definition field (key : string) (b : version.BuildInfo) : string :=
  if (key =? "Version")%string then version.Version b
  else if (key =? "GitRevision")%string then version.GitRevision b
  else if (key =? "GolangVersion")%string then version.GolangVersion b
  else if (key =? "BuildStatus")%string then version.BuildStatus b
  else if (key =? "GitTag")%string then version.GitTag b
  else EmptyString.

(** A line is well formed when it is blank or has a colon. *)
Definition wellFormed (line : string) : Prop :=
  blank line = true \/ has_byte COLON line = true.

(** The message of the error for the line [line]. *)
Definition invalidField (line : string) : fmt.error :=
  ("invalid BuildInfo input, field '" ++ line ++ "' is not valid")%string.

(** Modelled from the spec: the renderer of the legacy multi-line format is
    not part of this package; the specification gives the format as
    newline-separated lines of the form [Key: value].  One line for each of
    the five recognized keys, each ended by a line feed. *)
Definition renderLine (key value : string) : string :=
  (key ++ ": " ++ value ++ String LF EmptyString)%string.

Definition render (b : version.BuildInfo) : string :=
  (renderLine "Version" (version.Version b)
   ++ renderLine "GitRevision" (version.GitRevision b)
   ++ renderLine "GolangVersion" (version.GolangVersion b)
   ++ renderLine "BuildStatus" (version.BuildStatus b)
   ++ renderLine "GitTag" (version.GitTag b))%string.

(** The five recognized fields of two records agree. *)
Definition sameRecognized (a b : version.BuildInfo) : Prop :=
  version.Version a = version.Version b
  /\ version.GitRevision a = version.GitRevision b
  /\ version.GolangVersion a = version.GolangVersion b
  /\ version.BuildStatus a = version.BuildStatus b
  /\ version.GitTag a = version.GitTag b.

(** A field value the legacy format carries unchanged: it has no line feed
    and trimming leaves it as it is. *)
Definition plain (v : string) : Prop :=
  has_byte LF v = false /\ strings.TrimSpace v = v.

End legacy.

(** ** Sample texts and records *)
Module samples.

Definition nl : string := String LF EmptyString.

(** ["Version: 1.2.3\nBadLineNoColon\n"] *)
Definition badLine : string :=
  ("Version: 1.2.3" ++ nl ++ "BadLineNoColon" ++ nl)%string.

(** ["\n\n  \n"] *)
Definition blankLines : string := (nl ++ nl ++ "  " ++ nl)%string.

(** ["Unknown: ignored\nVersion: a\nversion: c\nVersion: b\n"] *)
Definition twice : string :=
  ("Unknown: ignored" ++ nl ++ "Version: a" ++ nl ++ "version: c" ++ nl
   ++ "Version: b" ++ nl)%string.

(** ["GitTag: 1.0:rc1\n:value\n"] *)
Definition colons : string :=
  ("GitTag: 1.0:rc1" ++ nl ++ ":value" ++ nl)%string.

Definition release : version.BuildInfo :=
  {| version.Version := "1.2.3"; version.GitRevision := "abcd";
     version.GolangVersion := "go1.16"; version.BuildStatus := "Clean";
     version.GitTag := "1.2.3"; version.Vendor := "" |}.

(** A record whose version starts with a space. *)
Definition padded : version.BuildInfo :=
  {| version.Version := " 1.2.3"; version.GitRevision := "abcd";
     version.GolangVersion := "go1.16"; version.BuildStatus := "Clean";
     version.GitTag := "1.2.3"; version.Vendor := "" |}.

Definition istioctl : version.Process :=
  {| version.Args := ["/usr/bin/istioctl"; "version"];
     version.GOOS := "linux"; version.GOARCH := "amd64" |}.

End samples.

(** ** Texts: notions used to state how the parser treats its input *)
Module text.

(** Two texts on consecutive lines. *)
Definition above (a b : string) : string :=
  (a ++ String LF b)%string.

(** A line the parser passes over: it is blank, or it has a colon and its
    key is none of the recognized ones. *)
Definition ignored (line : string) : Prop :=
  legacy.blank line = true
  \/ exists k, legacy.lineKey line = Some k /\ ~ In k legacy.recognized.

(** The first and the last byte of a string. *)
Definition firstByte (s : string) : option ascii :=
  match s with
  | EmptyString => None
  | String c _ => Some c
  end.

Fixpoint lastByte (s : string) : option ascii :=
  match s with
  | EmptyString => None
  | String c EmptyString => Some c
  | String _ t => lastByte t
  end.

(** The byte is one of tab, line feed, vertical tab, form feed, carriage
    return and space. *)
Definition white (c : ascii) : Prop := In c strings.asciiSpace.

(** A byte below [RuneSelf] that is not white space. *)
Definition solid (c : ascii) : Prop :=
  (byte c < utf8.RuneSelf)%Z /\ ~ white c.

(** A value with no white space around it, as far as bytes below
    [RuneSelf] show: it is empty, or it starts and ends with such a byte
    that is not white space. *)
Definition bare (v : string) : Prop :=
  v = EmptyString
  \/ exists a b,
       firstByte v = Some a /\ lastByte v = Some b /\ solid a /\ solid b.

(** Every byte of the string is white space. *)
Definition allWhite (ws : string) : Prop :=
  forall c, has_byte c ws = true -> white c.

(** Every byte of the string is the separator. *)
Definition separators (tail : string) : Prop :=
  forall c, has_byte c tail = true -> c = SLASH.

(** The carriage return, and the line end made of it and the line feed. *)
Definition CR : ascii := "013"%char.
Definition CRLF : string := String CR (String LF EmptyString).

(** The bytes of the lines of a text, the line feeds left out. *)
Definition size (lines : list string) : nat :=
  list_sum (map String.length lines).

(** The bytes [BuildInfo.String] takes from the record. *)
Definition compactSize (b : version.BuildInfo) : nat :=
  String.length (version.Version b)
  + String.length (version.GitRevision b)
  + String.length (version.BuildStatus b).

End text.

(** * Properties *)

(** ** Byte strings *)

Lemma append_empty_r (s : string) : (s ++ "")%string = s.
Proof.
  induction s as [|c s IH]; simpl; [reflexivity | now rewrite IH].
Qed.

Lemma append_assoc (a b c : string) :
  ((a ++ b) ++ c)%string = (a ++ (b ++ c))%string.
Proof.
  induction a as [|x a IH]; simpl; [reflexivity | now rewrite IH].
Qed.

Lemma length_append (a b : string) :
  String.length (a ++ b) = String.length a + String.length b.
Proof.
  induction a as [|x a IH]; simpl; [reflexivity | now rewrite IH].
Qed.

Lemma str_drop_app (a b : string) : str_drop (String.length a) (a ++ b) = b.
Proof.
  induction a as [|x a IH]; simpl; [now destruct b | exact IH].
Qed.

Lemma str_take_app (a b : string) : str_take (String.length a) (a ++ b) = a.
Proof.
  induction a as [|x a IH]; simpl; [now destruct b | now rewrite IH].
Qed.

Lemma has_byte_app (c : ascii) (a b : string) :
  has_byte c (a ++ b) = has_byte c a || has_byte c b.
Proof.
  induction a as [|x a IH]; simpl; [reflexivity|].
  now rewrite IH, orb_assoc.
Qed.

(** ** Cutting at the first occurrence of a byte *)

Lemma cut_none (c : ascii) (s : string) :
  legacy.cut c s = None <-> has_byte c s = false.
Proof.
  induction s as [|d t IH]; simpl.
  - tauto.
  - destruct (Ascii.eqb d c); simpl.
    + split; discriminate.
    + destruct (legacy.cut c t) as [[k v]|].
      * split; [discriminate|]. intros H. apply IH in H. discriminate.
      * split; [intros _; now apply IH | reflexivity].
Qed.

Lemma cut_some (c : ascii) (s k v : string) :
  legacy.cut c s = Some (k, v) <->
  s = (k ++ String c v)%string /\ has_byte c k = false.
Proof.
  revert k v; induction s as [|d t IH]; intros k v; simpl.
  - split; [discriminate|]. intros [H _]. destruct k; discriminate.
  - destruct (Ascii.eqb d c) eqn:E.
    + apply Ascii.eqb_eq in E; subst d. split.
      * intros H; inversion H; subst. now split.
      * intros [H Hk]. destruct k as [|x k]; simpl in *.
        -- now inversion H.
        -- inversion H; subst x. now rewrite Ascii.eqb_refl in Hk.
    + split.
      * destruct (legacy.cut c t) as [[k' v']|] eqn:C; [|discriminate].
        intros H; inversion H; subst.
        destruct (proj1 (IH k' v) eq_refl) as [-> Hk].
        simpl. now rewrite E.
      * intros [H Hk]. destruct k as [|x k]; simpl in *.
        -- inversion H; subst. now rewrite Ascii.eqb_refl in E.
        -- inversion H; subst x t. rewrite E in Hk; simpl in Hk.
           now rewrite (proj2 (IH k v) (conj eq_refl Hk)).
Qed.

(** Every string either lacks the byte or splits at its first occurrence. *)
Lemma cut_cases (c : ascii) (s : string) :
  has_byte c s = false \/
  exists k v, s = (k ++ String c v)%string /\ has_byte c k = false.
Proof.
  destruct (legacy.cut c s) as [[k v]|] eqn:C.
  - right. exists k, v. now apply cut_some.
  - left. now apply cut_none.
Qed.

(** ** [strings.Index] and the split functions at a one-byte separator *)

Lemma HasPrefix_byte (d c : ascii) (t : string) :
  strings.HasPrefix (String d t) (String c "") = Ascii.eqb d c.
Proof.
  simpl. now rewrite andb_true_r.
Qed.

Lemma Index_byte_none (c : ascii) (s : string) :
  has_byte c s = false -> strings.Index s (String c "") = None.
Proof.
  induction s as [|d t IH]; [reflexivity|].
  intros H. simpl in H. apply orb_false_iff in H. destruct H as [E H].
  cbn [strings.Index]. rewrite HasPrefix_byte, E, (IH H). reflexivity.
Qed.

Lemma Index_byte_some (c : ascii) (k v : string) :
  has_byte c k = false ->
  strings.Index (k ++ String c v) (String c "") = Some (String.length k).
Proof.
  induction k as [|d t IH]; intros H.
  - cbn [append strings.Index]. now rewrite HasPrefix_byte, Ascii.eqb_refl.
  - simpl in H. apply orb_false_iff in H. destruct H as [E H].
    cbn [append strings.Index]. rewrite HasPrefix_byte, E, (IH H).
    reflexivity.
Qed.

(** [SplitN] with a limit of two pieces cuts at the first separator. *)
Lemma SplitN_2_cut (c : ascii) (s : string) :
  strings.SplitN s (String c "") 2 =
  match legacy.cut c s with
  | Some (k, v) => [k; v]
  | None => [s]
  end.
Proof.
  unfold strings.SplitN, strings.genSplit.
  cbn [Z.eqb Z.ltb Z.compare String.length Nat.eqb].
  destruct (legacy.cut c s) as [[k v]|] eqn:C.
  - apply cut_some in C. destruct C as [-> Hk].
    assert (L : (Z.of_nat (String.length (k ++ String c v)) + 1 <? 2)%Z = false).
    { apply Z.ltb_ge. rewrite length_append. simpl. lia. }
    rewrite L. change (Z.to_nat (2 - 1)) with 1.
    cbn [strings.splitLoop]. rewrite (Index_byte_some c k v Hk).
    rewrite Nat.add_0_r, str_take_app.
    replace (String.length k + String.length (String c ""))
      with (String.length (k ++ String c "")) by apply length_append.
    replace (k ++ String c v)%string with ((k ++ String c "") ++ v)%string
      by (now rewrite append_assoc).
    now rewrite str_drop_app.
  - apply cut_none in C.
    destruct (Z.of_nat (String.length s) + 1 <? 2)%Z.
    + replace (Z.to_nat (Z.of_nat (String.length s) + 1 - 1))
        with (String.length s) by lia.
      destruct (String.length s); cbn [strings.splitLoop];
        [reflexivity | now rewrite (Index_byte_none c s C)].
    + change (Z.to_nat (2 - 1)) with 1. cbn [strings.splitLoop].
      now rewrite (Index_byte_none c s C).
Qed.

Lemma countFrom_le (c : ascii) (s : string) :
  strings.countFrom 0 s (String c "") <= String.length s.
Proof.
  induction s as [|d t IH]; simpl; [lia|].
  destruct (Ascii.eqb d c); simpl; lia.
Qed.

Lemma countFrom_none (c : ascii) (s : string) :
  has_byte c s = false -> strings.countFrom 0 s (String c "") = 0.
Proof.
  induction s as [|d t IH]; [reflexivity|].
  intros H. simpl in H. apply orb_false_iff in H. destruct H as [E H].
  simpl. rewrite E. simpl. now apply IH.
Qed.

Lemma countFrom_sep (c : ascii) (l r : string) :
  has_byte c l = false ->
  strings.countFrom 0 (l ++ String c r) (String c "") =
  S (strings.countFrom 0 r (String c "")).
Proof.
  induction l as [|d t IH]; intros H.
  - simpl. now rewrite Ascii.eqb_refl.
  - simpl in H. apply orb_false_iff in H. destruct H as [E H].
    simpl. rewrite E. simpl. now apply IH.
Qed.

(** [Split] makes as many cuts as the separator has instances. *)
Lemma Split_byte (c : ascii) (s : string) :
  strings.Split s (String c "") =
  strings.splitLoop (strings.countFrom 0 s (String c "")) s (String c "") 0.
Proof.
  unfold strings.Split, strings.genSplit, strings.Count.
  cbn [Z.eqb Z.ltb Z.compare String.length Nat.eqb].
  pose proof (countFrom_le c s) as L.
  destruct (Z.of_nat (String.length s) + 1 <?
            Z.of_nat (strings.countFrom 0 s (String c "")) + 1)%Z eqn:E.
  - apply Z.ltb_lt in E. lia.
  - f_equal. lia.
Qed.

Lemma Split_no_sep (c : ascii) (s : string) :
  has_byte c s = false -> strings.Split s (String c "") = [s].
Proof.
  intros H. rewrite Split_byte, (countFrom_none c s H). reflexivity.
Qed.

Lemma Split_sep (c : ascii) (l r : string) :
  has_byte c l = false ->
  strings.Split (l ++ String c r) (String c "") =
  l :: strings.Split r (String c "").
Proof.
  intros H. rewrite !Split_byte, (countFrom_sep c l r H).
  cbn [strings.splitLoop]. rewrite (Index_byte_some c l r H).
  rewrite Nat.add_0_r, str_take_app.
  replace (String.length l + String.length (String c ""))
    with (String.length (l ++ String c "")) by apply length_append.
  replace (l ++ String c r)%string with ((l ++ String c "") ++ r)%string
    by (now rewrite append_assoc).
  now rewrite str_drop_app.
Qed.

Lemma Split_not_nil (c : ascii) (s : string) :
  strings.Split s (String c "") <> [].
Proof.
  destruct (cut_cases c s) as [H | (k & v & -> & H)].
  - now rewrite (Split_no_sep c s H).
  - now rewrite (Split_sep c k v H).
Qed.

(** [Split] at a byte is the inverse of [Join]: the pieces joined by the
    separator give the string back, and no piece holds the separator. *)
Lemma Split_Join (c : ascii) (s : string) :
  strings.Join (strings.Split s (String c "")) (String c "") = s
  /\ Forall (fun l => has_byte c l = false) (strings.Split s (String c "")).
Proof.
  remember (String.length s) as n eqn:Hn.
  revert s Hn. induction n as [n IH] using lt_wf_ind. intros s Hn.
  destruct (cut_cases c s) as [H | (k & v & -> & H)].
  - rewrite (Split_no_sep c s H). split; [reflexivity | now constructor].
  - rewrite (Split_sep c k v H).
    assert (Hv : String.length v < n).
    { subst n. rewrite length_append. simpl. lia. }
    destruct (IH _ Hv v eq_refl) as [J F].
    split; [|now constructor].
    unfold strings.Join in *. simpl.
    destruct (strings.Split v (String c "")) eqn:S.
    + now apply Split_not_nil in S.
    + rewrite <- S in *. now rewrite J.
Qed.

(** ** Runes and trimming *)

(** A byte below [RuneSelf] is a rune of width one. *)
Lemma DecodeRuneInString_ascii (c : ascii) (t : string) :
  (byte c < utf8.RuneSelf)%Z ->
  utf8.DecodeRuneInString (String c t) = (byte c, 1).
Proof.
  intros H. unfold utf8.DecodeRuneInString.
  cbn [String.length Nat.ltb Nat.leb].
  change (idx (String c t) 0) with (byte c).
  unfold utf8.first. unfold utf8.RuneSelf in H.
  assert (E : (byte c <? 128)%Z = true) by (apply Z.ltb_lt; exact H).
  rewrite E. reflexivity.
Qed.

Lemma scanBack_le (fuel : nat) (s : string) (start lim : Z) :
  (utf8.scanBack fuel s start lim <= start)%Z.
Proof.
  revert start; induction fuel as [|k IH]; intros start; simpl; [lia|].
  destruct (start <? lim)%Z; [lia|].
  destruct (utf8.RuneStart (idx s start)); [lia|].
  specialize (IH (start - 1)%Z). lia.
Qed.

(** Behind a first byte below [RuneSelf], the last rune does not reach the
    start of the string. *)
Lemma DecodeLastRuneInString_behind (c : ascii) (t : string) (r : Z) (size : nat) :
  (byte c < utf8.RuneSelf)%Z -> t <> EmptyString ->
  utf8.DecodeLastRuneInString (String c t) = (r, size) ->
  1 <= size <= String.length t.
Proof.
  intros Hc Ht. unfold utf8.DecodeLastRuneInString.
  assert (Lt : 1 <= String.length t) by (destruct t; simpl; [congruence | lia]).
  cbn [String.length Nat.eqb].
  destruct (idx (String c t) (Z.of_nat (S (String.length t)) - 1) <? utf8.RuneSelf)%Z.
  { intros H; inversion H; subst. lia. }
  set (lim := Z.max 0 (Z.of_nat (S (String.length t)) - utf8.UTFMax)).
  pose proof (scanBack_le (Z.to_nat utf8.UTFMax) (String c t)
                (Z.of_nat (S (String.length t)) - 2) lim) as Hs.
  set (z := utf8.scanBack (Z.to_nat utf8.UTFMax) (String c t)
              (Z.of_nat (S (String.length t)) - 2) lim) in *.
  set (start := Z.to_nat (Z.max 0 z)).
  assert (Hstart : start + 2 <= S (String.length t)) by (subst start; lia).
  destruct start as [|start'] eqn:Es.
  - cbn [str_drop]. rewrite (DecodeRuneInString_ascii c t Hc).
    destruct (0 + 1 =? S (String.length t)) eqn:E.
    + apply Nat.eqb_eq in E. lia.
    + intros H; inversion H; subst. lia.
  - destruct (utf8.DecodeRuneInString (str_drop (S start') (String c t)))
      as [r' size'].
    destruct (S start' + size' =? S (String.length t)) eqn:E.
    + apply Nat.eqb_eq in E. intros H; inversion H; subst. lia.
    + intros H; inversion H; subst. lia.
Qed.

Lemma DecodeLastRuneInString_single (c : ascii) :
  (byte c < utf8.RuneSelf)%Z ->
  utf8.DecodeLastRuneInString (String c "") = (byte c, 1).
Proof.
  intros H. unfold utf8.DecodeLastRuneInString.
  cbn [String.length Nat.eqb].
  change (idx (String c "") (Z.of_nat 1 - 1)) with (byte c).
  apply Z.ltb_lt in H. now rewrite H.
Qed.

Lemma str_take_cons (i : nat) (c : ascii) (t : string) :
  str_take (S i) (String c t) = String c (str_take i t).
Proof. reflexivity. Qed.

Lemma str_take_length (i : nat) (s : string) :
  i <= String.length s -> String.length (str_take i s) = i.
Proof.
  revert s; induction i as [|i IH]; intros s H; [reflexivity|].
  destruct s as [|c t]; simpl in *; [lia|]. rewrite IH; lia.
Qed.

(** Scanning backwards over a string whose first byte is below [RuneSelf]
    and fails [f] finds a rune that fails [f]. *)
Lemma lastIndexFuncFrom_head (f : Z -> bool) (c : ascii) (t : string) :
  (byte c < utf8.RuneSelf)%Z -> f (byte c) = false ->
  forall fuel i,
    1 <= i <= String.length (String c t) -> i <= fuel ->
    strings.lastIndexFuncFrom fuel (String c t) i f false <> None.
Proof.
  intros Hc Hf. induction fuel as [|fuel IH]; intros i Hi Hfuel; [lia|].
  cbn [strings.lastIndexFuncFrom].
  destruct i as [|i]; [lia|]. cbn [Nat.eqb].
  rewrite str_take_cons.
  destruct (utf8.DecodeLastRuneInString (String c (str_take i t)))
    as [r size] eqn:D.
  destruct (Bool.eqb (f r) false) eqn:E; [discriminate|].
  destruct i as [|i].
  - cbn [str_take] in D. rewrite (DecodeLastRuneInString_single c Hc) in D.
    inversion D; subst. rewrite Hf in E. discriminate.
  - simpl in Hi.
    assert (Hlen : String.length (str_take (S i) t) = S i)
      by (apply str_take_length; lia).
    assert (Hne : str_take (S i) t <> EmptyString).
    { intros Z. rewrite Z in Hlen. discriminate. }
    pose proof (DecodeLastRuneInString_behind c _ r size Hc Hne D) as B.
    rewrite Hlen in B.
    apply IH; cbn [String.length]; lia.
Qed.

(** Trimming on the right leaves a first byte that is below [RuneSelf] and
    fails [f]. *)
Lemma TrimRightFunc_head (f : Z -> bool) (c : ascii) (t : string) :
  (byte c < utf8.RuneSelf)%Z -> f (byte c) = false ->
  strings.TrimRightFunc (String c t) f <> EmptyString.
Proof.
  intros Hc Hf. unfold strings.TrimRightFunc, strings.lastIndexFunc.
  pose proof (lastIndexFuncFrom_head f c t Hc Hf
                (String.length (String c t)) (String.length (String c t))) as N.
  destruct (strings.lastIndexFuncFrom _ _ _ f false) as [i|].
  - destruct i as [|i].
    + change (idx (String c t) (Z.of_nat 0)) with (byte c).
      assert (E : (utf8.RuneSelf <=? byte c)%Z = false) by (apply Z.leb_gt; exact Hc).
      rewrite E. discriminate.
    + destruct (utf8.RuneSelf <=? idx (String c t) (Z.of_nat (S i)))%Z;
        discriminate.
  - exfalso. apply N; simpl; try lia. reflexivity.
Qed.

(** Trimming on the left stops at a first byte that is below [RuneSelf]
    and fails [f], and passes one that satisfies [f]. *)
Lemma TrimLeftFunc_head (f : Z -> bool) (c : ascii) (t : string) :
  (byte c < utf8.RuneSelf)%Z ->
  strings.TrimLeftFunc (String c t) f =
  if f (byte c) then strings.TrimLeftFunc t f else String c t.
Proof.
  intros Hc. unfold strings.TrimLeftFunc, strings.indexFunc.
  cbn [strings.indexFuncFrom]. rewrite (DecodeRuneInString_ascii c t Hc).
  destruct (f (byte c)); cbn [Bool.eqb Nat.sub].
  - destruct (strings.indexFuncFrom 0 t f false); reflexivity.
  - reflexivity.
Qed.

(** A line that starts with a byte that is not white space is not blank. *)
Lemma TrimSpace_head (c : ascii) (t : string) :
  (byte c < utf8.RuneSelf)%Z -> unicode.IsSpace (byte c) = false ->
  strings.TrimSpace (String c t) <> EmptyString.
Proof.
  intros Hc Hs. unfold strings.TrimSpace, strings.TrimFunc.
  rewrite (TrimLeftFunc_head _ c t Hc), Hs.
  now apply TrimRightFunc_head.
Qed.

Lemma blank_head (c : ascii) (t : string) :
  (byte c < utf8.RuneSelf)%Z -> unicode.IsSpace (byte c) = false ->
  legacy.blank (String c t) = false.
Proof.
  intros Hc Hs. unfold legacy.blank. apply String.eqb_neq.
  now apply TrimSpace_head.
Qed.

(** White space in front of a string does not change what trimming leaves. *)
Lemma TrimSpace_space (c : ascii) (t : string) :
  (byte c < utf8.RuneSelf)%Z -> unicode.IsSpace (byte c) = true ->
  strings.TrimSpace (String c t) = strings.TrimSpace t.
Proof.
  intros Hc Hs. unfold strings.TrimSpace, strings.TrimFunc.
  now rewrite (TrimLeftFunc_head _ c t Hc), Hs.
Qed.

(** A string of white-space bytes below [RuneSelf] trims to nothing. *)
Lemma TrimSpace_ascii_spaces (s : string) :
  (forall c, has_byte c s = true ->
             (byte c < utf8.RuneSelf)%Z /\ unicode.IsSpace (byte c) = true) ->
  strings.TrimSpace s = EmptyString.
Proof.
  induction s as [|c t IH]; intros H; [reflexivity|].
  destruct (H c) as [Hc Hs]; [simpl; now rewrite Ascii.eqb_refl|].
  rewrite (TrimSpace_space c t Hc Hs). apply IH.
  intros d Hd. apply H. simpl. rewrite Hd. apply orb_true_r.
Qed.

(** ** The loop of the legacy parser, line by line *)

Section ParseLines.

Variables (line : string) (lines : list string) (res : version.BuildInfo).

(** A blank line is skipped. *)
Lemma parseLines_blank :
  legacy.blank line = true ->
  version.parseLines (line :: lines) res = version.parseLines lines res.
Proof.
  unfold legacy.blank. intros B. cbn [version.parseLines]. now rewrite B.
Qed.

(** A line with a colon assigns the trimmed value to the field of its key. *)
Lemma parseLines_entry (k v : string) :
  legacy.blank line = false -> legacy.cut COLON line = Some (k, v) ->
  version.parseLines (line :: lines) res =
  version.parseLines lines (version.setField k (strings.TrimSpace v) res).
Proof.
  unfold legacy.blank. intros B C. cbn [version.parseLines]. rewrite B.
  change ":"%string with (String COLON "").
  rewrite SplitN_2_cut, C. reflexivity.
Qed.

(** A line without a colon ends the loop with the error for that line. *)
Lemma parseLines_invalid :
  legacy.blank line = false -> has_byte COLON line = false ->
  version.parseLines (line :: lines) res =
  (version.BuildInfo_zero, Some (legacy.invalidField line)).
Proof.
  unfold legacy.blank. intros B C. cbn [version.parseLines]. rewrite B.
  change ":"%string with (String COLON "").
  apply cut_none in C. rewrite SplitN_2_cut, C. reflexivity.
Qed.

End ParseLines.

(** The fields of [setField k v res], one key at a time. *)
Ltac setField_cases k :=
  unfold version.setField;
  repeat match goal with
         | |- context [String.eqb k ?key] =>
             let E := fresh "E" in
             destruct (String.eqb k key) eqn:E;
             [apply String.eqb_eq in E; subst k; reflexivity|]
         end;
  reflexivity.

Lemma setField_Version (k v : string) (res : version.BuildInfo) :
  version.Version (version.setField k v res) =
  if (k =? "Version")%string then v else version.Version res.
Proof. setField_cases k. Qed.

Lemma setField_GitRevision (k v : string) (res : version.BuildInfo) :
  version.GitRevision (version.setField k v res) =
  if (k =? "GitRevision")%string then v else version.GitRevision res.
Proof. setField_cases k. Qed.

Lemma setField_GolangVersion (k v : string) (res : version.BuildInfo) :
  version.GolangVersion (version.setField k v res) =
  if (k =? "GolangVersion")%string then v else version.GolangVersion res.
Proof. setField_cases k. Qed.

Lemma setField_BuildStatus (k v : string) (res : version.BuildInfo) :
  version.BuildStatus (version.setField k v res) =
  if (k =? "BuildStatus")%string then v else version.BuildStatus res.
Proof. setField_cases k. Qed.

Lemma setField_GitTag (k v : string) (res : version.BuildInfo) :
  version.GitTag (version.setField k v res) =
  if (k =? "GitTag")%string then v else version.GitTag res.
Proof. setField_cases k. Qed.

Lemma setField_Vendor (k v : string) (res : version.BuildInfo) :
  version.Vendor (version.setField k v res) = version.Vendor res.
Proof. setField_cases k. Qed.

Lemma BuildInfo_eta (b : version.BuildInfo) :
  b = {| version.Version := version.Version b;
         version.GitRevision := version.GitRevision b;
         version.GolangVersion := version.GolangVersion b;
         version.BuildStatus := version.BuildStatus b;
         version.GitTag := version.GitTag b;
         version.Vendor := version.Vendor b |}.
Proof. now destruct b. Qed.

(** One entry in front of a text: the record it makes is the one the rest
    makes of the record with that entry assigned. *)
Lemma recordFrom_entry (line k v : string) (lines : list string)
  (res : version.BuildInfo) :
  legacy.blank line = false -> legacy.cut COLON line = Some (k, v) ->
  legacy.recordFrom (line :: lines) res =
  legacy.recordFrom lines (version.setField k (strings.TrimSpace v) res).
Proof.
  intros B C. unfold legacy.recordFrom, legacy.fieldFrom.
  cbn [legacy.entries]. rewrite B, C. cbn [legacy.lastValue].
  rewrite setField_Version, setField_GitRevision, setField_GolangVersion,
    setField_BuildStatus, setField_GitTag, setField_Vendor.
  f_equal;
    match goal with
    | |- context [legacy.lastValue ?key ?es] =>
        destruct (legacy.lastValue key es); [reflexivity|];
        destruct (String.eqb k key); reflexivity
    end.
Qed.

Lemma recordFrom_skip (line : string) (lines : list string)
  (res : version.BuildInfo) :
  legacy.blank line = true ->
  legacy.recordFrom (line :: lines) res = legacy.recordFrom lines res.
Proof.
  intros B. unfold legacy.recordFrom, legacy.fieldFrom.
  cbn [legacy.entries]. now rewrite B.
Qed.

(** When the loop ends without an error, the record is the one the text
    makes of the record the loop started with. *)
Lemma parseLines_recordFrom (lines : list string) :
  forall res r,
    version.parseLines lines res = (r, None) ->
    r = legacy.recordFrom lines res.
Proof.
  induction lines as [|line lines IH]; intros res r H.
  - cbn in H. inversion H; subst. apply BuildInfo_eta.
  - destruct (legacy.blank line) eqn:B.
    + rewrite parseLines_blank in H by exact B.
      rewrite recordFrom_skip by exact B. now apply IH.
    + destruct (legacy.cut COLON line) as [[k v]|] eqn:C.
      * rewrite (parseLines_entry _ _ _ k v B C) in H.
        rewrite (recordFrom_entry _ k v _ _ B C). now apply IH.
      * apply cut_none in C.
        rewrite (parseLines_invalid _ _ _ B C) in H. discriminate.
Qed.

(** Well-formed lines never end the loop with an error. *)
Lemma parseLines_wellFormed (lines : list string) :
  Forall legacy.wellFormed lines ->
  forall res, snd (version.parseLines lines res) = None.
Proof.
  induction 1 as [|line lines W _ IH]; intros res; [reflexivity|].
  destruct (legacy.blank line) eqn:B.
  - rewrite parseLines_blank by exact B. apply IH.
  - destruct W as [W|W]; [congruence|].
    destruct (legacy.cut COLON line) as [[k v]|] eqn:C.
    + rewrite (parseLines_entry _ _ _ k v B C). apply IH.
    + apply cut_none in C. congruence.
Qed.

(** The loop ends at the first line that is neither blank nor has a colon. *)
Lemma parseLines_first_invalid (pre : list string) (line : string)
  (post : list string) :
  Forall legacy.wellFormed pre ->
  legacy.blank line = false -> has_byte COLON line = false ->
  forall res,
    version.parseLines (pre ++ line :: post) res =
    (version.BuildInfo_zero, Some (legacy.invalidField line)).
Proof.
  intros W B C. induction W as [|l pre Wl _ IH]; intros res.
  - now apply parseLines_invalid.
  - cbn [app]. destruct (legacy.blank l) eqn:Bl.
    + rewrite parseLines_blank by exact Bl. apply IH.
    + destruct Wl as [Wl|Wl]; [congruence|].
      destruct (legacy.cut COLON l) as [[k v]|] eqn:Cl.
      * rewrite (parseLines_entry _ _ _ k v Bl Cl). apply IH.
      * apply cut_none in Cl. congruence.
Qed.

(** A key no line carries has no entry. *)
Lemma lastValue_absent (key : string) (lines : list string) :
  (forall l, In l lines -> legacy.lineKey l <> Some key) ->
  legacy.lastValue key (legacy.entries lines) = None.
Proof.
  induction lines as [|line lines IH]; intros H; [reflexivity|].
  assert (IH' : legacy.lastValue key (legacy.entries lines) = None)
    by (apply IH; intros l Hl; apply H; now right).
  cbn [legacy.entries].
  destruct (legacy.blank line); [exact IH'|].
  pose proof (H line (or_introl eq_refl)) as K. unfold legacy.lineKey in K.
  destruct (legacy.cut COLON line) as [[k v]|]; [|exact IH'].
  cbn [legacy.lastValue]. rewrite IH'.
  destruct (String.eqb k key) eqn:E; [|reflexivity].
  apply String.eqb_eq in E. subst k. now elim K.
Qed.

(** ** The claims *)

(** C1. For every input, the first line that is not blank and has no colon
    makes [NewBuildInfoFromOldString] return the error whose message
    carries that line, the raw first segment, and the zero record with it:
    the fields the lines before it assigned are discarded. *)
Theorem C1_first_line_without_colon_aborts
  (s : string) (pre : list string) (line : string) (post : list string) :
  strings.Split s (String LF "") = pre ++ line :: post ->
  Forall legacy.wellFormed pre ->
  legacy.blank line = false -> has_byte COLON line = false ->
  version.NewBuildInfoFromOldString s =
  (version.BuildInfo_zero,
   Some ("invalid BuildInfo input, field '" ++ line ++ "' is not valid")%string).
Proof.
  intros S W B C. unfold version.NewBuildInfoFromOldString. rewrite S.
  now apply parseLines_first_invalid.
Qed.

Lemma C1_first_line_without_colon_aborts_witness :
  version.NewBuildInfoFromOldString samples.badLine =
  (version.BuildInfo_zero,
   Some "invalid BuildInfo input, field 'BadLineNoColon' is not valid"%string).
Proof.
  apply (C1_first_line_without_colon_aborts samples.badLine
           ["Version: 1.2.3"%string] "BadLineNoColon" [""%string]).
  - vm_compute. reflexivity.
  - constructor; [right; vm_compute; reflexivity | constructor].
  - vm_compute. reflexivity.
  - vm_compute. reflexivity.
Defined.

(** C2. For every input that [NewBuildInfoFromOldString] accepts, each of
    the five fields holds the trimmed value of the last line whose key is
    exactly [Version], [GitRevision], [GolangVersion], [BuildStatus] or
    [GitTag], and the empty string when no line has that key; lines with
    any other key change nothing, and the vendor field keeps its zero
    value. *)
Theorem C2_recognized_keys_last_wins (s : string) (r : version.BuildInfo) :
  version.NewBuildInfoFromOldString s = (r, None) ->
  r = legacy.recordOf (strings.Split s (String LF ""))
  /\ version.Vendor r = EmptyString.
Proof.
  unfold version.NewBuildInfoFromOldString. intros H.
  apply parseLines_recordFrom in H. subst r. split; reflexivity.
Qed.

Lemma C2_recognized_keys_last_wins_witness :
  version.NewBuildInfoFromOldString samples.twice =
  ({| version.Version := "b"; version.GitRevision := "";
      version.GolangVersion := ""; version.BuildStatus := "";
      version.GitTag := ""; version.Vendor := "" |}, None)
  /\ legacy.recordOf (strings.Split samples.twice (String LF "")) =
     {| version.Version := "b"; version.GitRevision := "";
        version.GolangVersion := ""; version.BuildStatus := "";
        version.GitTag := ""; version.Vendor := "" |}.
Proof.
  assert (H : version.NewBuildInfoFromOldString samples.twice =
    ({| version.Version := "b"; version.GitRevision := "";
        version.GolangVersion := ""; version.BuildStatus := "";
        version.GitTag := ""; version.Vendor := "" |}, None))
    by (vm_compute; reflexivity).
  split; [exact H|].
  symmetry. exact (proj1 (C2_recognized_keys_last_wins _ _ H)).
Defined.

(** C3, as the specification states it, fails: the parser starts from the
    zero record [BuildInfo{}] and takes no default from its caller, so the
    empty text is accepted and leaves every field empty, not ["unknown"]. *)
Lemma C3_absent_field_unknown_counterexample :
  ~ (forall (s : string) (r : version.BuildInfo) (key : string),
        version.NewBuildInfoFromOldString s = (r, None) ->
        In key legacy.recognized ->
        (forall l, In l (strings.Split s (String LF "")) ->
                   legacy.lineKey l <> Some key) ->
        legacy.field key r = "unknown"%string).
Proof.
  intros H.
  assert (P : version.NewBuildInfoFromOldString "" =
              (version.BuildInfo_zero, None)) by (vm_compute; reflexivity).
  assert (S : strings.Split "" (String LF "") = [""%string])
    by (vm_compute; reflexivity).
  assert (A : legacy.field "Version" version.BuildInfo_zero = "unknown"%string).
  { apply (H ""%string version.BuildInfo_zero "Version"%string P).
    - now left.
    - rewrite S. intros l Hl. destruct Hl as [<-|[]].
      vm_compute. discriminate. }
  vm_compute in A. discriminate.
Qed.

Lemma field_recordFrom (key : string) (lines : list string)
  (res : version.BuildInfo) :
  In key legacy.recognized ->
  legacy.field key (legacy.recordFrom lines res) =
  legacy.fieldFrom key lines (legacy.field key res).
Proof.
  intros K. repeat (destruct K as [<-|K]; [reflexivity|]). destruct K.
Qed.

(** C3, amended. For every text [NewBuildInfoFromOldString] accepts, a
    recognized field that no line of the text carries is left at the zero
    value of the record, the empty string. *)
Theorem C3_absent_field_zero
  (s : string) (r : version.BuildInfo) (key : string) :
  version.NewBuildInfoFromOldString s = (r, None) ->
  In key legacy.recognized ->
  (forall l, In l (strings.Split s (String LF "")) ->
             legacy.lineKey l <> Some key) ->
  legacy.field key r = EmptyString.
Proof.
  unfold version.NewBuildInfoFromOldString. intros H K A.
  apply parseLines_recordFrom in H. subst r.
  rewrite (field_recordFrom key _ _ K). unfold legacy.fieldFrom.
  rewrite (lastValue_absent key _ A).
  repeat (destruct K as [<-|K]; [reflexivity|]). destruct K.
Qed.

Lemma C3_absent_field_zero_witness :
  legacy.field "GitTag" (fst (version.NewBuildInfoFromOldString samples.twice))
  = EmptyString.
Proof.
  apply (C3_absent_field_zero samples.twice _ "GitTag").
  - vm_compute. reflexivity.
  - vm_compute. tauto.
  - intros l H. vm_compute in H.
    repeat (destruct H as [<-|H]; [vm_compute; discriminate|]). destruct H.
Defined.

(** C4. For every record, [BuildInfo.String] is the version, the git
    revision and the build status joined by hyphens, the values written as
    they are: two records whose values place a hyphen differently render
    the same. *)
Theorem C4_String_layout :
  (forall b : version.BuildInfo,
      version.BuildInfo_String b =
      (version.Version b ++ "-" ++ version.GitRevision b ++ "-"
       ++ version.BuildStatus b)%string)
  /\ version.BuildInfo_String
       {| version.Version := "a-b"; version.GitRevision := "c";
          version.GolangVersion := ""; version.BuildStatus := "d";
          version.GitTag := ""; version.Vendor := "" |}
     = version.BuildInfo_String
         {| version.Version := "a"; version.GitRevision := "b-c";
            version.GolangVersion := ""; version.BuildStatus := "d";
            version.GitTag := ""; version.Vendor := "" |}.
Proof.
  split; [|reflexivity].
  intros b. unfold version.BuildInfo_String. cbn [fmt.Sprintf Ascii.eqb
    Bool.eqb orb fmt.extra].
  now rewrite append_empty_r.
Qed.

(** A key that trimming would change is none of the recognized keys. *)
Lemma setField_untrimmed (k value : string) (res : version.BuildInfo) :
  strings.TrimSpace k <> k -> version.setField k value res = res.
Proof.
  intros T. unfold version.setField.
  repeat match goal with
         | |- context [String.eqb k ?key] =>
             let E := fresh "E" in
             destruct (String.eqb k key) eqn:E;
             [apply String.eqb_eq in E; subst k; exfalso; apply T;
              vm_compute; reflexivity|]
         end.
  reflexivity.
Qed.

(** ** [filepath.Base] *)

Lemma stripTrailingSeparators_plain (b : string) :
  has_byte SLASH b = false -> filepath.stripTrailingSeparators b = b.
Proof.
  induction b as [|c t IH]; [reflexivity|].
  intros H. simpl in H. apply orb_false_iff in H. destruct H as [E H].
  cbn [filepath.stripTrailingSeparators]. rewrite (IH H).
  destruct t; [|reflexivity].
  unfold filepath.IsPathSeparator, filepath.Separator. now rewrite E.
Qed.

Lemma stripTrailingSeparators_app (a b : string) :
  b <> EmptyString -> has_byte SLASH b = false ->
  filepath.stripTrailingSeparators (a ++ b) = (a ++ b)%string.
Proof.
  intros N H. induction a as [|c a IH].
  - now apply stripTrailingSeparators_plain.
  - cbn [append filepath.stripTrailingSeparators]. rewrite IH.
    destruct (a ++ b)%string eqn:E; [|reflexivity].
    destruct a; simpl in E; [congruence | discriminate].
Qed.

Lemma lastSeparator_plain (b : string) :
  has_byte SLASH b = false -> filepath.lastSeparator b = None.
Proof.
  induction b as [|c t IH]; [reflexivity|].
  intros H. simpl in H. apply orb_false_iff in H. destruct H as [E H].
  cbn [filepath.lastSeparator]. rewrite (IH H).
  unfold filepath.IsPathSeparator, filepath.Separator. now rewrite E.
Qed.

Lemma lastSeparator_app (a b : string) :
  has_byte SLASH b = false ->
  filepath.lastSeparator (a ++ String SLASH b) = Some (String.length a).
Proof.
  intros H. induction a as [|c a IH].
  - cbn [append filepath.lastSeparator]. rewrite (lastSeparator_plain b H).
    reflexivity.
  - cbn [append filepath.lastSeparator]. now rewrite IH.
Qed.

(** The base of [dir/name] is [name]. *)
Lemma Base_last_element (dir name : string) :
  name <> EmptyString -> has_byte SLASH name = false ->
  filepath.Base (dir ++ String SLASH name) = name.
Proof.
  intros N H. unfold filepath.Base.
  assert (E : ((dir ++ String SLASH name) =? "")%string = false).
  { apply String.eqb_neq. destruct dir; discriminate. }
  rewrite E.
  replace (dir ++ String SLASH name)%string
    with ((dir ++ String SLASH "") ++ name)%string
    by (now rewrite append_assoc).
  rewrite (stripTrailingSeparators_app _ name N H).
  unfold filepath.VolumeName. cbn [String.length str_drop].
  replace ((dir ++ String SLASH "") ++ name)%string
    with (dir ++ String SLASH name)%string
    by (now rewrite append_assoc).
  rewrite (lastSeparator_app dir name H).
  replace (String.length dir + 1) with (String.length (dir ++ String SLASH ""))
    by (rewrite length_append; reflexivity).
  replace (dir ++ String SLASH name)%string
    with ((dir ++ String SLASH "") ++ name)%string
    by (now rewrite append_assoc).
  rewrite str_drop_app.
  apply String.eqb_neq in N. now rewrite N.
Qed.

Lemma Base_not_empty (p : string) : filepath.Base p <> EmptyString.
Proof.
  unfold filepath.Base. destruct (p =? "")%string; [discriminate|].
  match goal with
  | |- (if (?x =? "")%string then _ else _) <> _ =>
      destruct (x =? "")%string eqn:E;
      [discriminate | now apply String.eqb_neq in E]
  end.
Qed.

Lemma adjustCommand_cases (p : string) :
  version.adjustCommand p =
  match p with
  | EmptyString => "unknown"%string
  | _ => filepath.Base p
  end.
Proof. now destruct p. Qed.

(** ** Blank texts *)

Lemma parseLines_all_blank (lines : list string) (res : version.BuildInfo) :
  Forall (fun l => strings.TrimSpace l = EmptyString) lines ->
  version.parseLines lines res = (res, None).
Proof.
  induction 1 as [|line lines B _ IH]; [reflexivity|].
  rewrite parseLines_blank; [exact IH|].
  unfold legacy.blank. now apply String.eqb_eq.
Qed.

Lemma has_byte_concat (c : ascii) (sep l : string) (lines : list string) :
  In l lines -> has_byte c l = true ->
  has_byte c (String.concat sep lines) = true.
Proof.
  intros I H. induction lines as [|x lines IH]; [destruct I|].
  assert (E : has_byte c (String.concat sep (x :: lines)) =
              has_byte c x
              || match lines with
                 | [] => false
                 | _ => has_byte c sep || has_byte c (String.concat sep lines)
                 end).
  { destruct lines; cbn [String.concat].
    - now rewrite orb_false_r.
    - now rewrite !has_byte_app. }
  rewrite E. destruct I as [->|I].
  - now rewrite H.
  - destruct lines; [destruct I|].
    rewrite (IH I). now rewrite !orb_true_r.
Qed.

Lemma asciiSpace_IsSpace (c : ascii) :
  In c strings.asciiSpace ->
  (byte c < utf8.RuneSelf)%Z /\ unicode.IsSpace (byte c) = true.
Proof.
  intros I. repeat (destruct I as [<-|I]; [now vm_compute|]). destruct I.
Qed.

(** C7. [NewBuildInfoFromOldString] returns the zero record and no error
    on the empty string, on every input whose lines all trim to nothing,
    and so on every input made of white-space bytes only. *)
Theorem C7_blank_input :
  version.NewBuildInfoFromOldString "" = (version.BuildInfo_zero, None)
  /\ (forall s,
         Forall (fun l => strings.TrimSpace l = EmptyString)
                (strings.Split s (String LF "")) ->
         version.NewBuildInfoFromOldString s = (version.BuildInfo_zero, None))
  /\ (forall s,
         (forall c, has_byte c s = true -> In c strings.asciiSpace) ->
         version.NewBuildInfoFromOldString s = (version.BuildInfo_zero, None)).
Proof.
  split; [vm_compute; reflexivity|]. split.
  - intros s B. unfold version.NewBuildInfoFromOldString.
    now apply parseLines_all_blank.
  - intros s W. unfold version.NewBuildInfoFromOldString.
    apply parseLines_all_blank. apply Forall_forall. intros l I.
    apply TrimSpace_ascii_spaces. intros c H.
    apply asciiSpace_IsSpace, W.
    destruct (Split_Join LF s) as [J _]. rewrite <- J.
    unfold strings.Join. now apply has_byte_concat with (l := l).
Qed.

Lemma C7_blank_input_witness :
  version.NewBuildInfoFromOldString samples.blankLines =
  (version.BuildInfo_zero, None).
Proof.
  destruct C7_blank_input as (_ & H & _).
  apply (H samples.blankLines).
  assert (S : strings.Split samples.blankLines (String LF "") =
              [""; ""; "  "; ""]%string) by (vm_compute; reflexivity).
  rewrite S. repeat constructor.
Defined.

(** ** The legacy format and the compact line *)

Lemma renderLine_Split (key v rest : string) :
  has_byte LF key = false -> has_byte LF v = false ->
  strings.Split (legacy.renderLine key v ++ rest) (String LF "") =
  (key ++ ": " ++ v)%string :: strings.Split rest (String LF "").
Proof.
  intros K V. unfold legacy.renderLine.
  replace ((key ++ ": " ++ v ++ String LF "") ++ rest)%string
    with ((key ++ ": " ++ v) ++ String LF rest)%string.
  - apply Split_sep. rewrite !has_byte_app, K, V. reflexivity.
  - rewrite !append_assoc. reflexivity.
Qed.

(** A rendered line assigns its value under its key. *)
Lemma parseLines_rendered (c : ascii) (key' v : string)
  (lines : list string) (res : version.BuildInfo) :
  (byte c < utf8.RuneSelf)%Z -> unicode.IsSpace (byte c) = false ->
  has_byte COLON (String c key') = false ->
  strings.TrimSpace v = v ->
  version.parseLines ((String c key' ++ ": " ++ v)%string :: lines) res =
  version.parseLines lines (version.setField (String c key') v res).
Proof.
  intros Hc Hs K T.
  rewrite (parseLines_entry _ lines res (String c key') (String " " v)).
  - rewrite (TrimSpace_space " " v); [now rewrite T | now vm_compute | reflexivity].
  - cbn [append]. now apply blank_head.
  - apply cut_some. split; [reflexivity | exact K].
Qed.

(** C8, as the specification states it, fails in its second half: the
    parser trims the value, so a record whose version starts with a space
    does not come back from its legacy rendering. *)
Lemma C8_round_trip_every_record_counterexample :
  ~ ((exists r, version.NewBuildInfoFromOldString (version.BuildInfo_String r)
                <> (r, None))
     /\ (forall r, exists r',
            version.NewBuildInfoFromOldString (legacy.render r) = (r', None)
            /\ legacy.sameRecognized r r')).
Proof.
  intros [_ H]. destruct (H samples.padded) as (r' & P & S).
  assert (Q : version.NewBuildInfoFromOldString (legacy.render samples.padded)
              = (samples.release, None)) by (vm_compute; reflexivity).
  rewrite Q in P. assert (R : r' = samples.release) by congruence.
  subst r'. destruct S as [V _]. vm_compute in V. discriminate.
Qed.

(** C8, amended. There are records that rendering by [BuildInfo.String]
    and parsing again does not give back; and for every record whose five
    recognized fields have no line feed and are left as they are by
    trimming, the legacy format rendered with the five recognized keys
    parses without error to the record with the same five fields, the
    vendor at its zero value. *)
Theorem C8_round_trip_plain_fields :
  (exists r, version.NewBuildInfoFromOldString (version.BuildInfo_String r)
             <> (r, None))
  /\ (forall r,
         legacy.plain (version.Version r) ->
         legacy.plain (version.GitRevision r) ->
         legacy.plain (version.GolangVersion r) ->
         legacy.plain (version.BuildStatus r) ->
         legacy.plain (version.GitTag r) ->
         version.NewBuildInfoFromOldString (legacy.render r) =
         ({| version.Version := version.Version r;
             version.GitRevision := version.GitRevision r;
             version.GolangVersion := version.GolangVersion r;
             version.BuildStatus := version.BuildStatus r;
             version.GitTag := version.GitTag r;
             version.Vendor := "" |}, None)).
Proof.
  split.
  - exists samples.release. vm_compute. discriminate.
  - intros r [N1 T1] [N2 T2] [N3 T3] [N4 T4] [N5 T5].
    unfold version.NewBuildInfoFromOldString, legacy.render.
    rewrite <- (append_empty_r (legacy.renderLine "GitTag" (version.GitTag r))).
    rewrite !renderLine_Split by (assumption || reflexivity).
    assert (S : strings.Split "" (String LF "") = [""%string])
      by (vm_compute; reflexivity).
    rewrite S.
    rewrite !parseLines_rendered
      by (assumption || (vm_compute; solve [reflexivity | discriminate])).
    rewrite parseLines_blank by (vm_compute; reflexivity).
    reflexivity.
Qed.

Lemma C8_round_trip_plain_fields_witness :
  version.NewBuildInfoFromOldString (legacy.render samples.release) =
  (samples.release, None).
Proof.
  destruct C8_round_trip_plain_fields as [_ H].
  apply (H samples.release); split; vm_compute; reflexivity.
Defined.

(** C9. The object [json.Marshal] writes for a [BuildInfo] has exactly the
    members [version], [revision], [golang_version], [status], [tag] and
    [vendor], holding the fields [Version], [GitRevision], [GolangVersion],
    [BuildStatus], [GitTag] and [Vendor] in that correspondence. *)
Theorem C9_json_member_names (b : version.BuildInfo) :
  json.objectMembers version.BuildInfo_fields b =
  [ ("version"%string, version.Version b);
    ("revision"%string, version.GitRevision b);
    ("golang_version"%string, version.GolangVersion b);
    ("status"%string, version.BuildStatus b);
    ("tag"%string, version.GitTag b);
    ("vendor"%string, version.Vendor b) ].
Proof.
  vm_compute. reflexivity.
Qed.

(** C10. A line with a colon never ends the loop with an error: the loop
    goes on with the lines after it; a text whose lines are all blank or
    have a colon is accepted; and a line that starts with a colon, its key
    empty, assigns no field. *)
Theorem C10_colon_lines_never_fail :
  (forall line lines res,
      has_byte COLON line = true ->
      exists res',
        version.parseLines (line :: lines) res =
        version.parseLines lines res')
  /\ (forall s,
         Forall legacy.wellFormed (strings.Split s (String LF "")) ->
         snd (version.NewBuildInfoFromOldString s) = None)
  /\ (forall v lines res,
         version.parseLines (String COLON v :: lines) res =
         version.parseLines lines res).
Proof.
  split; [|split].
  - intros line lines res H. destruct (legacy.blank line) eqn:B.
    + exists res. now apply parseLines_blank.
    + destruct (legacy.cut COLON line) as [[k v]|] eqn:C.
      * eexists. now apply parseLines_entry with (k := k) (v := v).
      * apply cut_none in C. congruence.
  - intros s W. unfold version.NewBuildInfoFromOldString.
    now apply parseLines_wellFormed.
  - intros v lines res.
    rewrite (parseLines_entry _ lines res EmptyString v).
    + reflexivity.
    + apply blank_head; now vm_compute.
    + apply cut_some. split; reflexivity.
Qed.

Lemma C10_colon_lines_never_fail_witness :
  snd (version.NewBuildInfoFromOldString samples.colons) = None
  /\ exists res',
       version.parseLines [":value"%string] samples.release =
       version.parseLines [] res'.
Proof.
  destruct C10_colon_lines_never_fail as (Hline & Htext & _).
  split.
  - apply (Htext samples.colons).
    assert (S : strings.Split samples.colons (String LF "") =
                ["GitTag: 1.0:rc1"; ":value"; ""]%string)
      by (vm_compute; reflexivity).
    rewrite S.
    constructor; [right; vm_compute; reflexivity|].
    constructor; [right; vm_compute; reflexivity|].
    constructor; [left; vm_compute; reflexivity|].
    constructor.
  - apply (Hline ":value"%string [] samples.release).
    vm_compute. reflexivity.
Defined.

(** * Further properties of the package *)

(** ** Texts put together *)

Lemma Split_above (c : ascii) (a b : string) :
  strings.Split (a ++ String c b) (String c "") =
  strings.Split a (String c "") ++ strings.Split b (String c "").
Proof.
  remember (String.length a) as n eqn:Hn.
  revert a Hn. induction n as [n IH] using lt_wf_ind. intros a Hn.
  destruct (cut_cases c a) as [H | (k & v & -> & H)].
  - rewrite (Split_sep c a b H), (Split_no_sep c a H). reflexivity.
  - rewrite append_assoc. cbn [append].
    rewrite (Split_sep c k _ H), (Split_sep c k v H).
    assert (Hv : String.length v < n).
    { subst n. rewrite length_append. simpl. lia. }
    rewrite (IH _ Hv v eq_refl). reflexivity.
Qed.

(** The loop over two lists of lines: the second list is read with the
    record the first one leaves, unless the first one ends in an error. *)
Lemma parseLines_app (l1 l2 : list string) :
  forall res,
    version.parseLines (l1 ++ l2) res =
    match version.parseLines l1 res with
    | (r1, None) => version.parseLines l2 r1
    | (r, Some e) => (r, Some e)
    end.
Proof.
  induction l1 as [|line l1 IH]; intros res; [reflexivity|].
  cbn [app]. destruct (legacy.blank line) eqn:B.
  - rewrite !parseLines_blank by exact B. apply IH.
  - destruct (legacy.cut COLON line) as [[k v]|] eqn:C.
    + rewrite !(parseLines_entry _ _ _ k v B C). apply IH.
    + apply cut_none in C. rewrite !(parseLines_invalid _ _ _ B C).
      reflexivity.
Qed.

(** What the loop returns, in full: the record the text makes when every
    line is well formed, the zero record and the error of the first line
    that is not well formed otherwise. *)
Lemma parseLines_total (lines : list string) :
  forall res,
    (Forall legacy.wellFormed lines
     /\ version.parseLines lines res = (legacy.recordFrom lines res, None))
    \/ (exists pre line post,
           lines = pre ++ line :: post
           /\ Forall legacy.wellFormed pre
           /\ legacy.blank line = false /\ has_byte COLON line = false
           /\ version.parseLines lines res =
              (version.BuildInfo_zero, Some (legacy.invalidField line))).
Proof.
  induction lines as [|line lines IH]; intros res.
  - left. split; [constructor|]. cbn. f_equal. apply BuildInfo_eta.
  - destruct (legacy.blank line) eqn:B.
    + destruct (IH res) as [[W P] | (pre & l & post & -> & W & Bl & Cl & P)].
      * left. split; [constructor; [now left | exact W]|].
        rewrite parseLines_blank, recordFrom_skip by exact B. exact P.
      * right. exists (line :: pre), l, post.
        repeat split; try assumption.
        -- constructor; [now left | exact W].
        -- rewrite parseLines_blank by exact B. exact P.
    + destruct (legacy.cut COLON line) as [[k v]|] eqn:C.
      * assert (Hc : has_byte COLON line = true).
        { destruct (has_byte COLON line) eqn:E; [reflexivity|].
          apply cut_none in E. congruence. }
        destruct (IH (version.setField k (strings.TrimSpace v) res))
          as [[W P] | (pre & l & post & -> & W & Bl & Cl & P)].
        -- left. split; [constructor; [now right | exact W]|].
           rewrite (parseLines_entry _ _ _ k v B C),
             (recordFrom_entry _ k v _ _ B C). exact P.
        -- right. exists (line :: pre), l, post.
           repeat split; try assumption.
           ++ constructor; [now right | exact W].
           ++ rewrite (parseLines_entry _ _ _ k v B C). exact P.
      * apply cut_none in C. right. exists [], line, lines.
        repeat split; try assumption; [constructor|].
        now apply parseLines_invalid.
Qed.

(** A line that is not well formed is in no well-formed text. *)
Lemma wellFormed_not_invalid (pre : list string) (line : string)
  (post : list string) :
  legacy.blank line = false -> has_byte COLON line = false ->
  ~ Forall legacy.wellFormed (pre ++ line :: post).
Proof.
  intros B C W. apply Forall_app in W. destruct W as [_ W].
  inversion W as [|? ? [Hb|Hc] _]; congruence.
Qed.

(** X1. [NewBuildInfoFromOldString] returns no error exactly when every
    line of its input is blank or has a colon. *)
Theorem X1_accepted_iff_well_formed (s : string) :
  snd (version.NewBuildInfoFromOldString s) = None <->
  Forall legacy.wellFormed (strings.Split s (String LF "")).
Proof.
  unfold version.NewBuildInfoFromOldString. split.
  - intros H.
    destruct (parseLines_total (strings.Split s (String LF ""))
                version.BuildInfo_zero)
      as [[W _] | (pre & l & post & E & W & Bl & Cl & P)]; [exact W|].
    rewrite P in H. discriminate.
  - intros W. now apply parseLines_wellFormed.
Qed.

(** X2. Whenever [NewBuildInfoFromOldString] returns an error, the record
    beside it is the zero record, and the message is the one for a line of
    the input that is not blank and has no colon, all lines before it being
    blank or having one. *)
Theorem X2_error_names_first_invalid_line
  (s : string) (r : version.BuildInfo) (e : fmt.error) :
  version.NewBuildInfoFromOldString s = (r, Some e) ->
  r = version.BuildInfo_zero
  /\ exists pre line post,
       strings.Split s (String LF "") = pre ++ line :: post
       /\ Forall legacy.wellFormed pre
       /\ legacy.blank line = false /\ has_byte COLON line = false
       /\ e = ("invalid BuildInfo input, field '" ++ line
               ++ "' is not valid")%string.
Proof.
  unfold version.NewBuildInfoFromOldString. intros H.
  destruct (parseLines_total (strings.Split s (String LF ""))
              version.BuildInfo_zero)
    as [[_ P] | (pre & l & post & E & W & Bl & Cl & P)].
  - rewrite P in H. discriminate.
  - rewrite P in H. inversion H; subst. split; [reflexivity|].
    exists pre, l, post. repeat split; assumption.
Qed.

Lemma X2_error_names_first_invalid_line_witness :
  exists pre line post,
    strings.Split samples.badLine (String LF "") = pre ++ line :: post
    /\ Forall legacy.wellFormed pre
    /\ legacy.blank line = false /\ has_byte COLON line = false
    /\ legacy.invalidField "BadLineNoColon" =
       ("invalid BuildInfo input, field '" ++ line ++ "' is not valid")%string.
Proof.
  apply (X2_error_names_first_invalid_line samples.badLine
           version.BuildInfo_zero (legacy.invalidField "BadLineNoColon")).
  vm_compute. reflexivity.
Defined.

(** An error does not depend on the record the loop started with, and
    neither does acceptance. *)
Lemma parseLines_error_any (lines : list string) :
  forall res r e,
    version.parseLines lines res = (r, Some e) ->
    forall res', version.parseLines lines res' = (r, Some e).
Proof.
  induction lines as [|line lines IH]; intros res r e H res'.
  - discriminate.
  - destruct (legacy.blank line) eqn:B.
    + rewrite parseLines_blank in H by exact B.
      rewrite parseLines_blank by exact B. now apply IH with (res := res).
    + destruct (legacy.cut COLON line) as [[k v]|] eqn:C.
      * rewrite (parseLines_entry _ _ _ k v B C) in H.
        rewrite (parseLines_entry _ _ _ k v B C).
        eapply IH. exact H.
      * apply cut_none in C. rewrite (parseLines_invalid _ _ _ B C) in H.
        rewrite (parseLines_invalid _ _ _ B C). exact H.
Qed.

Lemma parseLines_accept_any (lines : list string) (res r : version.BuildInfo) :
  version.parseLines lines res = (r, None) ->
  forall res',
    version.parseLines lines res' = (legacy.recordFrom lines res', None).
Proof.
  intros H res'.
  destruct (parseLines_total lines res')
    as [[_ P] | (pre & l & post & E & W & Bl & Cl & P)]; [exact P|].
  rewrite (parseLines_error_any _ _ _ _ P res) in H. discriminate.
Qed.

(** X3. Two texts on consecutive lines: an error of the first, or else of
    the second, is the error of the whole; when both are accepted the
    whole is accepted, and each recognized field is the one the second
    text gives when it has a line for that key and the one the first text
    gives otherwise. *)
Theorem X3_texts_compose (a b : string) :
  (forall r e,
      version.NewBuildInfoFromOldString a = (r, Some e) ->
      version.NewBuildInfoFromOldString (text.above a b) = (r, Some e))
  /\ (forall ra r e,
         version.NewBuildInfoFromOldString a = (ra, None) ->
         version.NewBuildInfoFromOldString b = (r, Some e) ->
         version.NewBuildInfoFromOldString (text.above a b) = (r, Some e))
  /\ (forall ra rb,
         version.NewBuildInfoFromOldString a = (ra, None) ->
         version.NewBuildInfoFromOldString b = (rb, None) ->
         version.NewBuildInfoFromOldString (text.above a b) =
         (legacy.recordFrom (strings.Split b (String LF "")) ra, None)).
Proof.
  unfold version.NewBuildInfoFromOldString, text.above.
  rewrite Split_above, parseLines_app.
  split; [|split].
  - intros r e H. now rewrite H.
  - intros ra r e Ha Hb. rewrite Ha.
    now apply parseLines_error_any with (res := version.BuildInfo_zero).
  - intros ra rb Ha Hb. rewrite Ha.
    now apply parseLines_accept_any with (res := version.BuildInfo_zero) (r := rb).
Qed.

Lemma X3_texts_compose_witness :
  version.NewBuildInfoFromOldString (text.above samples.twice samples.colons)
  = ({| version.Version := "b"; version.GitRevision := "";
        version.GolangVersion := ""; version.BuildStatus := "";
        version.GitTag := "1.0:rc1"; version.Vendor := "" |}, None)
  /\ version.NewBuildInfoFromOldString
       (text.above samples.badLine samples.colons)
     = (version.BuildInfo_zero, Some (legacy.invalidField "BadLineNoColon"))
  /\ version.NewBuildInfoFromOldString
       (text.above samples.colons samples.badLine)
     = (version.BuildInfo_zero, Some (legacy.invalidField "BadLineNoColon")).
Proof.
  split; [|split].
  - destruct (X3_texts_compose samples.twice samples.colons) as (_ & _ & H).
    rewrite (H (fst (version.NewBuildInfoFromOldString samples.twice))
               (fst (version.NewBuildInfoFromOldString samples.colons)))
      by (vm_compute; reflexivity).
    vm_compute. reflexivity.
  - destruct (X3_texts_compose samples.badLine samples.colons) as (H & _ & _).
    apply H. vm_compute. reflexivity.
  - destruct (X3_texts_compose samples.colons samples.badLine) as (_ & H & _).
    apply (H (fst (version.NewBuildInfoFromOldString samples.colons))).
    + vm_compute. reflexivity.
    + vm_compute. reflexivity.
Defined.

(** ** Lines that change nothing *)

Lemma setField_unrecognized (k v : string) (res : version.BuildInfo) :
  ~ In k legacy.recognized -> version.setField k v res = res.
Proof.
  intros N. unfold version.setField.
  repeat match goal with
         | |- context [String.eqb k ?key] =>
             let E := fresh "E" in
             destruct (String.eqb k key) eqn:E;
             [apply String.eqb_eq in E; subst k; exfalso; apply N;
              cbn; tauto|]
         end.
  reflexivity.
Qed.

Lemma parseLines_ignored (line : string) (lines : list string)
  (res : version.BuildInfo) :
  text.ignored line ->
  version.parseLines (line :: lines) res = version.parseLines lines res.
Proof.
  intros I. destruct (legacy.blank line) eqn:B.
  - now apply parseLines_blank.
  - destruct I as [I | (k & K & N)]; [congruence|].
    unfold legacy.lineKey in K.
    destruct (legacy.cut COLON line) as [[k' v]|] eqn:C; [|discriminate].
    cbn in K. inversion K; subst k'.
    rewrite (parseLines_entry _ _ _ k v B C).
    now rewrite setField_unrecognized.
Qed.

(** X4. A line that is blank, or whose key is none of the five recognized
    ones, can be taken out of a text, between two parts of it, at its start
    or at its end, without changing what [NewBuildInfoFromOldString]
    returns; so a line feed at the end of a text changes nothing. *)
Theorem X4_ignored_lines_change_nothing (a l b : string) :
  has_byte LF l = false -> text.ignored l ->
  version.NewBuildInfoFromOldString (text.above a (text.above l b)) =
  version.NewBuildInfoFromOldString (text.above a b)
  /\ version.NewBuildInfoFromOldString (text.above l b) =
     version.NewBuildInfoFromOldString b
  /\ version.NewBuildInfoFromOldString (text.above a l) =
     version.NewBuildInfoFromOldString a.
Proof.
  intros N I. unfold version.NewBuildInfoFromOldString, text.above.
  rewrite !Split_above, (Split_no_sep LF l N), !parseLines_app.
  split; [|split].
  - destruct (version.parseLines (strings.Split a (String LF "")) _)
      as [r1 [e|]]; [reflexivity|].
    cbn [app]. now rewrite parseLines_ignored.
  - cbn [app]. destruct (version.parseLines [l] version.BuildInfo_zero)
      as [r1 o] eqn:P.
    rewrite parseLines_ignored in P by exact I. cbn in P.
    inversion P; subst. reflexivity.
  - destruct (version.parseLines (strings.Split a (String LF "")) _)
      as [r1 [e|]]; [reflexivity|].
    rewrite parseLines_ignored by exact I. reflexivity.
Qed.

Lemma X4_ignored_lines_change_nothing_witness :
  version.NewBuildInfoFromOldString
    (text.above "Version: 1" (text.above "Hub: docker.io/istio" "GitTag: t"))
  = version.NewBuildInfoFromOldString (text.above "Version: 1" "GitTag: t")
  /\ version.NewBuildInfoFromOldString (text.above "Version: 1" "")
     = version.NewBuildInfoFromOldString "Version: 1".
Proof.
  split.
  - apply (X4_ignored_lines_change_nothing
             "Version: 1" "Hub: docker.io/istio" "GitTag: t").
    + vm_compute. reflexivity.
    + right. exists "Hub"%string. split; [vm_compute; reflexivity|].
      cbn. intros H. repeat (destruct H as [H|H]; [discriminate|]). exact H.
  - apply (X4_ignored_lines_change_nothing "Version: 1" "" "").
    + vm_compute. reflexivity.
    + left. vm_compute. reflexivity.
Defined.

(** ** The order of lines with different keys *)

Lemma BuildInfo_ext (a b : version.BuildInfo) :
  version.Version a = version.Version b ->
  version.GitRevision a = version.GitRevision b ->
  version.GolangVersion a = version.GolangVersion b ->
  version.BuildStatus a = version.BuildStatus b ->
  version.GitTag a = version.GitTag b ->
  version.Vendor a = version.Vendor b ->
  a = b.
Proof.
  destruct a, b; cbn; intros; subst; reflexivity.
Qed.

(** Assignments under different keys commute. *)
Lemma setField_comm (k1 v1 k2 v2 : string) (res : version.BuildInfo) :
  k1 <> k2 ->
  version.setField k1 v1 (version.setField k2 v2 res) =
  version.setField k2 v2 (version.setField k1 v1 res).
Proof.
  intros N.
  apply BuildInfo_ext;
    rewrite ?setField_Version, ?setField_GitRevision, ?setField_GolangVersion,
      ?setField_BuildStatus, ?setField_GitTag, ?setField_Vendor;
    try reflexivity;
    match goal with
    | |- context [String.eqb k1 ?key] =>
        destruct (String.eqb k1 key) eqn:E1;
        destruct (String.eqb k2 key) eqn:E2; try reflexivity;
        apply String.eqb_eq in E1; apply String.eqb_eq in E2; congruence
    end.
Qed.

Lemma parseLines_swap (l1 l2 : string) (lines : list string)
  (res : version.BuildInfo) :
  legacy.wellFormed l1 -> legacy.wellFormed l2 ->
  (forall k, legacy.lineKey l1 = Some k -> legacy.lineKey l2 = Some k -> False) ->
  version.parseLines (l1 :: l2 :: lines) res =
  version.parseLines (l2 :: l1 :: lines) res.
Proof.
  intros W1 W2 D.
  destruct (legacy.blank l1) eqn:B1.
  { rewrite (parseLines_blank l1) by exact B1.
    destruct (legacy.blank l2) eqn:B2.
    - rewrite !(parseLines_blank l2) by exact B2.
      now rewrite (parseLines_blank l1) by exact B1.
    - destruct (legacy.cut COLON l2) as [[k2 v2]|] eqn:C2.
      + rewrite !(parseLines_entry l2 _ _ k2 v2 B2 C2).
        now rewrite (parseLines_blank l1) by exact B1.
      + apply cut_none in C2. destruct W2; congruence. }
  destruct (legacy.cut COLON l1) as [[k1 v1]|] eqn:C1;
    [|apply cut_none in C1; destruct W1; congruence].
  rewrite (parseLines_entry l1 _ _ k1 v1 B1 C1).
  destruct (legacy.blank l2) eqn:B2.
  { rewrite !(parseLines_blank l2) by exact B2.
    now rewrite (parseLines_entry l1 _ _ k1 v1 B1 C1). }
  destruct (legacy.cut COLON l2) as [[k2 v2]|] eqn:C2;
    [|apply cut_none in C2; destruct W2; congruence].
  rewrite !(parseLines_entry l2 _ _ k2 v2 B2 C2).
  rewrite (parseLines_entry l1 _ _ k1 v1 B1 C1).
  rewrite setField_comm; [reflexivity|].
  intros ->. apply (D k1); unfold legacy.lineKey.
  - now rewrite C1.
  - now rewrite C2.
Qed.

(** X5. Two neighbouring lines of a text, each blank or with a colon and
    not both with the same key, can change places without changing what
    [NewBuildInfoFromOldString] returns. *)
Theorem X5_lines_with_different_keys_commute (a l1 l2 b : string) :
  has_byte LF l1 = false -> has_byte LF l2 = false ->
  legacy.wellFormed l1 -> legacy.wellFormed l2 ->
  (forall k, legacy.lineKey l1 = Some k -> legacy.lineKey l2 = Some k -> False) ->
  version.NewBuildInfoFromOldString
    (text.above a (text.above l1 (text.above l2 b))) =
  version.NewBuildInfoFromOldString
    (text.above a (text.above l2 (text.above l1 b))).
Proof.
  intros N1 N2 W1 W2 D. unfold version.NewBuildInfoFromOldString, text.above.
  rewrite !Split_above, (Split_no_sep LF l1 N1), (Split_no_sep LF l2 N2).
  rewrite !(parseLines_app (strings.Split a (String LF ""))).
  destruct (version.parseLines (strings.Split a (String LF "")) _)
    as [r1 [e|]]; [reflexivity|].
  cbn [app]. now apply parseLines_swap.
Qed.

Lemma X5_lines_with_different_keys_commute_witness :
  version.NewBuildInfoFromOldString
    (text.above "Version: 1"
       (text.above "GitTag: t" (text.above "BuildStatus: Clean" "")))
  = version.NewBuildInfoFromOldString
      (text.above "Version: 1"
         (text.above "BuildStatus: Clean" (text.above "GitTag: t" ""))).
Proof.
  apply (X5_lines_with_different_keys_commute
           "Version: 1" "GitTag: t" "BuildStatus: Clean" "").
  - vm_compute. reflexivity.
  - vm_compute. reflexivity.
  - right. vm_compute. reflexivity.
  - right. vm_compute. reflexivity.
  - intros k H1 H2. vm_compute in H1, H2. congruence.
Defined.

(** ** The compact line is no legacy text of its record *)

Lemma length_str_drop_le (i : nat) (s : string) :
  String.length (str_drop i s) <= String.length s.
Proof.
  revert s; induction i as [|i IH]; intros s; [reflexivity|].
  destruct s as [|c t]; cbn; [lia|]. specialize (IH t). lia.
Qed.

Lemma length_str_take_le (i : nat) (s : string) :
  String.length (str_take i s) <= String.length s.
Proof.
  revert s; induction i as [|i IH]; intros s; cbn; [lia|].
  destruct s as [|c t]; cbn; [lia|]. specialize (IH t). lia.
Qed.

(** Trimming does not make a string longer. *)
Lemma TrimSpace_length (s : string) :
  String.length (strings.TrimSpace s) <= String.length s.
Proof.
  unfold strings.TrimSpace, strings.TrimFunc.
  assert (L : String.length (strings.TrimLeftFunc s unicode.IsSpace)
              <= String.length s).
  { unfold strings.TrimLeftFunc.
    destruct (strings.indexFunc s unicode.IsSpace false);
      [apply length_str_drop_le | cbn; lia]. }
  set (u := strings.TrimLeftFunc s unicode.IsSpace) in *.
  assert (R : String.length (strings.TrimRightFunc u unicode.IsSpace)
              <= String.length u).
  { unfold strings.TrimRightFunc.
    destruct (strings.lastIndexFunc u unicode.IsSpace false) as [i|].
    - destruct (utf8.RuneSelf <=? idx u (Z.of_nat i))%Z;
        apply length_str_take_le.
    - apply length_str_take_le. }
  lia.
Qed.

Lemma cut_length (c : ascii) (s k v : string) :
  legacy.cut c s = Some (k, v) ->
  String.length s = String.length k + 1 + String.length v.
Proof.
  intros C. apply cut_some in C. destruct C as [-> _].
  rewrite length_append. cbn. lia.
Qed.

Lemma size_Split_le (s : string) :
  text.size (strings.Split s (String LF "")) <= String.length s.
Proof.
  remember (String.length s) as n eqn:Hn.
  revert s Hn. induction n as [n IH] using lt_wf_ind. intros s Hn.
  destruct (cut_cases LF s) as [H | (k & v & -> & H)].
  - rewrite (Split_no_sep LF s H). unfold text.size. cbn. lia.
  - rewrite (Split_sep LF k v H).
    assert (Hv : String.length v < n).
    { subst n. rewrite length_append. cbn. lia. }
    pose proof (IH _ Hv v eq_refl) as L.
    unfold text.size in *. unfold list_sum in *. cbn [map fold_right].
    subst n. rewrite length_append. cbn [String.length]. lia.
Qed.

Lemma recordFrom_no_colon (line : string) (lines : list string)
  (res : version.BuildInfo) :
  legacy.cut COLON line = None ->
  legacy.recordFrom (line :: lines) res = legacy.recordFrom lines res.
Proof.
  intros C. unfold legacy.recordFrom, legacy.fieldFrom.
  cbn [legacy.entries]. rewrite C. now destruct (legacy.blank line).
Qed.

(** Either a text leaves the three fields of the compact line as they
    were, or the three fields it makes are shorter than the text by the
    key and the colon of a line, eight bytes at least. *)
Lemma compactSize_recordFrom (lines : list string) :
  forall res,
    (version.Version (legacy.recordFrom lines res) = version.Version res
     /\ version.GitRevision (legacy.recordFrom lines res) =
        version.GitRevision res
     /\ version.BuildStatus (legacy.recordFrom lines res) =
        version.BuildStatus res)
    \/ text.compactSize (legacy.recordFrom lines res) + 8
       <= text.size lines + text.compactSize res.
Proof.
  induction lines as [|line lines IH]; intros res.
  - left. repeat split.
  - assert (Hs : text.size (line :: lines) =
                 String.length line + text.size lines) by reflexivity.
    destruct (legacy.blank line) eqn:B.
    { rewrite recordFrom_skip by exact B.
      destruct (IH res) as [E|L]; [now left | right; lia]. }
    destruct (legacy.cut COLON line) as [[k v]|] eqn:C.
    2:{ rewrite recordFrom_no_colon by exact C.
        destruct (IH res) as [E|L]; [now left | right; lia]. }
    rewrite (recordFrom_entry _ k v _ _ B C).
    pose proof (cut_length _ _ _ _ C) as Lc.
    pose proof (TrimSpace_length v) as Lt.
    remember (strings.TrimSpace v) as tv eqn:Etv. clear Etv.
    pose proof (setField_Version k tv res) as FV.
    pose proof (setField_GitRevision k tv res) as FG.
    pose proof (setField_BuildStatus k tv res) as FB.
    remember (version.setField k tv res) as res' eqn:Er. clear Er.
    assert (K : (version.Version res' = version.Version res
                 /\ version.GitRevision res' = version.GitRevision res
                 /\ version.BuildStatus res' = version.BuildStatus res)
                \/ text.compactSize res' + 8
                   <= String.length line + text.compactSize res).
    { unfold text.compactSize.
      destruct (String.eqb k "Version") eqn:E1.
      { apply String.eqb_eq in E1. subst k. cbn in FG, FB, Lc.
        right. rewrite FV, FG, FB. lia. }
      destruct (String.eqb k "GitRevision") eqn:E2.
      { apply String.eqb_eq in E2. subst k. cbn in FB, Lc.
        right. rewrite FV, FG, FB. lia. }
      destruct (String.eqb k "BuildStatus") eqn:E3.
      { apply String.eqb_eq in E3. subst k. cbn in Lc.
        right. rewrite FV, FG, FB. lia. }
      left. now rewrite FV, FG, FB. }
    destruct (IH res') as [(EV & EG & EB) | L].
    + destruct K as [(KV & KG & KB) | K].
      * left. now rewrite EV, EG, EB, KV, KG, KB.
      * right. unfold text.compactSize in *. rewrite EV, EG, EB. lia.
    + destruct K as [(KV & KG & KB) | K].
      * right. unfold text.compactSize in *.
        rewrite KV, KG, KB in L. lia.
      * right. lia.
Qed.

Lemma BuildInfo_String_append (b : version.BuildInfo) :
  version.BuildInfo_String b =
  (version.Version b ++ "-" ++ version.GitRevision b ++ "-"
   ++ version.BuildStatus b)%string.
Proof.
  unfold version.BuildInfo_String.
  cbn [fmt.Sprintf Ascii.eqb Bool.eqb orb fmt.extra].
  now rewrite append_empty_r.
Qed.

(** X6. For no record does [NewBuildInfoFromOldString] read the compact
    line [BuildInfo.String] of the record back as that record. *)
Theorem X6_compact_line_never_parses_back (b : version.BuildInfo) :
  version.NewBuildInfoFromOldString (version.BuildInfo_String b) <> (b, None).
Proof.
  intros H. pose proof H as P. unfold version.NewBuildInfoFromOldString in P.
  apply parseLines_recordFrom in P.
  pose proof (size_Split_le (version.BuildInfo_String b)) as S.
  assert (L : String.length (version.BuildInfo_String b) =
              text.compactSize b + 2).
  { rewrite BuildInfo_String_append, !length_append.
    unfold text.compactSize. cbn. lia. }
  destruct (compactSize_recordFrom
              (strings.Split (version.BuildInfo_String b) (String LF ""))
              version.BuildInfo_zero) as [(EV & EG & EB) | B].
  - rewrite <- P in EV, EG, EB. cbn in EV, EG, EB.
    rewrite BuildInfo_String_append, EV, EG, EB in H.
    vm_compute in H. discriminate.
  - rewrite <- P in B. change (text.compactSize version.BuildInfo_zero) with 0 in B.
    lia.
Qed.

(** ** The program name *)

Lemma has_byte_str_drop (c : ascii) (i : nat) (s : string) :
  has_byte c (str_drop i s) = true -> has_byte c s = true.
Proof.
  revert s; induction i as [|i IH]; intros s H; [exact H|].
  destruct s as [|d t]; [exact H|]. cbn in *. rewrite (IH t H).
  apply orb_true_r.
Qed.

Lemma has_byte_str_take (c : ascii) (i : nat) (s : string) :
  has_byte c (str_take i s) = true -> has_byte c s = true.
Proof.
  revert s; induction i as [|i IH]; intros s H; [discriminate|].
  destruct s as [|d t]; [discriminate|]. cbn in *.
  destruct (Ascii.eqb d c); [reflexivity|]. cbn in *. now apply IH.
Qed.

(** Behind the last separator there is no separator. *)
Lemma lastSeparator_rest (q : string) :
  has_byte SLASH
    (match filepath.lastSeparator q with
     | Some i => str_drop (i + 1) q
     | None => q
     end) = false.
Proof.
  induction q as [|c t IH]; [reflexivity|].
  cbn [filepath.lastSeparator].
  destruct (filepath.lastSeparator t) as [i|].
  - exact IH.
  - unfold filepath.IsPathSeparator, filepath.Separator.
    destruct (Ascii.eqb c SLASH) eqn:E.
    + cbn. destruct t; exact IH.
    + cbn [has_byte]. now rewrite E, IH.
Qed.

Lemma stripTrailingSeparators_slash (p : string) :
  filepath.stripTrailingSeparators (p ++ String SLASH "") =
  filepath.stripTrailingSeparators p.
Proof.
  induction p as [|c t IH]; [reflexivity|].
  cbn [append filepath.stripTrailingSeparators]. now rewrite IH.
Qed.

Lemma Base_plain (p : string) :
  p <> EmptyString -> has_byte SLASH p = false -> filepath.Base p = p.
Proof.
  intros N H. unfold filepath.Base.
  apply String.eqb_neq in N. rewrite N.
  rewrite (stripTrailingSeparators_plain p H).
  unfold filepath.VolumeName. cbn [String.length str_drop].
  rewrite (lastSeparator_plain p H). now rewrite N.
Qed.

Lemma Base_separator_free (p : string) :
  has_byte SLASH (filepath.Base p) = true ->
  filepath.Base p = String SLASH "".
Proof.
  unfold filepath.Base. destruct (p =? "")%string; [discriminate|].
  unfold filepath.VolumeName. cbn [String.length str_drop].
  pose proof (lastSeparator_rest (filepath.stripTrailingSeparators p)) as R.
  destruct (_ =? "")%string; [reflexivity|]. congruence.
Qed.

Lemma adjustCommand_separator (p : string) :
  has_byte SLASH (version.adjustCommand p) = true ->
  version.adjustCommand p = String SLASH "".
Proof.
  rewrite adjustCommand_cases. destruct p as [|c t]; [discriminate|].
  apply Base_separator_free.
Qed.

(** X7. The program name [adjustCommand] gives holds no path separator,
    unless it is the single separator itself. *)
Theorem X7_program_name_has_no_separator (p : string) :
  has_byte SLASH (version.adjustCommand p) = true ->
  version.adjustCommand p = String SLASH "".
Proof.
  rewrite adjustCommand_cases. destruct p as [|c t]; [discriminate|].
  apply Base_separator_free.
Qed.

Lemma X7_program_name_has_no_separator_witness :
  version.adjustCommand "///" = String SLASH "".
Proof.
  apply (X7_program_name_has_no_separator "///"). vm_compute. reflexivity.
Defined.

(** X8. [adjustCommand] is idempotent: the program name of a program name
    is that name. *)
Theorem X8_program_name_idempotent (p : string) :
  version.adjustCommand (version.adjustCommand p) = version.adjustCommand p.
Proof.
  destruct (has_byte SLASH (version.adjustCommand p)) eqn:H.
  - rewrite (adjustCommand_separator p H). reflexivity.
  - rewrite (adjustCommand_cases (version.adjustCommand p)).
    destruct (version.adjustCommand p) as [|c t] eqn:E.
    + rewrite adjustCommand_cases in E. destruct p; [discriminate|].
      now apply Base_not_empty in E.
    + now apply Base_plain.
Qed.

(** X9. A separator at the end of a path that is not empty does not change
    the program name. *)
Theorem X9_trailing_separator_dropped (p : string) :
  p <> EmptyString ->
  version.adjustCommand (p ++ String SLASH "") = version.adjustCommand p.
Proof.
  intros N. rewrite !adjustCommand_cases.
  destruct p as [|c t]; [congruence|]. cbn [append].
  unfold filepath.Base.
  change (String c (t ++ String SLASH ""))
    with (String c t ++ String SLASH "")%string.
  rewrite stripTrailingSeparators_slash. reflexivity.
Qed.

Lemma X9_trailing_separator_dropped_witness :
  version.adjustCommand "/usr/bin/istioctl/" = "istioctl"%string.
Proof.
  change "/usr/bin/istioctl/"%string
    with ("/usr/bin/istioctl" ++ String SLASH "")%string.
  rewrite (X9_trailing_separator_dropped "/usr/bin/istioctl")
    by discriminate.
  vm_compute. reflexivity.
Defined.

(** ** Runes, bytes and trimming, in general *)

Lemma byte_range (c : ascii) : (0 <= byte c < 256)%Z.
Proof.
  unfold byte. pose proof (N_ascii_bounded c) as B. lia.
Qed.

Lemma idx_nat (s : string) (i : nat) :
  idx s (Z.of_nat i) =
  match String.get i s with Some c => byte c | None => 0%Z end.
Proof.
  unfold idx. destruct (Z.of_nat i <? 0)%Z eqn:E.
  - apply Z.ltb_lt in E. lia.
  - now rewrite Nat2Z.id.
Qed.

Lemma idx_cons (c : ascii) (t : string) (i : nat) :
  idx (String c t) (Z.of_nat (S i)) = idx t (Z.of_nat i).
Proof. rewrite !idx_nat. reflexivity. Qed.

Lemma idx_head (c : ascii) (t : string) : idx (String c t) 0 = byte c.
Proof. reflexivity. Qed.

Ltac bools :=
  repeat match goal with
         | H : (_ <? _)%Z = true |- _ => apply Z.ltb_lt in H
         | H : (_ <? _)%Z = false |- _ => apply Z.ltb_ge in H
         | H : (_ <=? _)%Z = true |- _ => apply Z.leb_le in H
         | H : (_ <=? _)%Z = false |- _ => apply Z.leb_gt in H
         | H : (_ =? _)%Z = true |- _ => apply Z.eqb_eq in H
         | H : (_ =? _)%Z = false |- _ => apply Z.eqb_neq in H
         | H : (_ <? _) = true |- _ => apply Nat.ltb_lt in H
         | H : (_ <? _) = false |- _ => apply Nat.ltb_ge in H
         | H : (_ <=? _) = true |- _ => apply Nat.leb_le in H
         | H : (_ <=? _) = false |- _ => apply Nat.leb_gt in H
         | H : (_ =? _) = true |- _ => apply Nat.eqb_eq in H
         | H : (_ =? _) = false |- _ => apply Nat.eqb_neq in H
         | H : (_ || _)%bool = false |- _ => apply orb_false_iff in H; destruct H
         end.

Lemma DecodeRuneInString_shape (s : string) (r : Z) (w : nat) :
  utf8.DecodeRuneInString s = (r, w) ->
  (s = "" /\ w = 0) \/
  (1 <= w <= String.length s
   /\ (2 <= w -> forall j, j < w -> (utf8.RuneSelf <= idx s (Z.of_nat j))%Z)).
Proof.
  destruct s as [|c t].
  { cbn. intros H; inversion H. now left. }
  intros H. right. revert H.
  unfold utf8.DecodeRuneInString.
  cbn [String.length]. change (S (String.length t) <? 1) with false. cbv iota.
  rewrite idx_head.
  change 1%Z with (Z.of_nat 1). change 2%Z with (Z.of_nat 2).
  change 3%Z with (Z.of_nat 3).
  pose proof (byte_range c) as Bc.
  set (s0 := byte c) in *.
  set (b1 := idx (String c t) (Z.of_nat 1)).
  set (b2 := idx (String c t) (Z.of_nat 2)).
  set (b3 := idx (String c t) (Z.of_nat 3)).
  assert (J : forall j, j < 4 ->
     idx (String c t) (Z.of_nat j) =
     match j with 0 => s0 | 1 => b1 | 2 => b2 | _ => b3 end).
  { intros j Hj. destruct j as [|[|[|[|j]]]]; try reflexivity. lia. }
  clearbody b1 b2 b3.
  unfold utf8.first.
  repeat match goal with
         | |- context [if (s0 <? ?k)%Z then _ else _] =>
             destruct (s0 <? k)%Z eqn:?
         | |- context [if (s0 =? ?k)%Z then _ else _] =>
             destruct (s0 =? k)%Z eqn:?
         end;
  cbn [utf8.as_ utf8.xx utf8.s1 utf8.s2 utf8.s3 utf8.s4 utf8.s5 utf8.s6 utf8.s7];
  cbn -[Z.of_nat idx String.length Z.ltb Z.leb Nat.ltb Nat.leb];
  repeat match goal with
         | |- context [if ?b then _ else _] => destruct b eqn:?
         end;
  intros H; inversion H; subst; clear H; bools;
  unfold utf8.as_, utf8.xx, utf8.s1, utf8.s2, utf8.s3, utf8.s4, utf8.s5,
    utf8.s6, utf8.s7, utf8.RuneSelf, utf8.locb, utf8.hicb in *;
  (split; [lia|]); intros W j Hj; try lia;
  rewrite (J j) by lia;
  destruct j as [|[|[|j]]]; cbn in *; lia.
Qed.

Lemma get_str_take (i m : nat) (s : string) :
  i < m -> String.get i (str_take m s) = String.get i s.
Proof.
  revert i s; induction m as [|m IH]; intros i s H; [lia|].
  destruct s as [|c t]; [reflexivity|]. destruct i as [|i]; [reflexivity|].
  cbn. apply IH. lia.
Qed.

Lemma get_str_drop (i k : nat) (s : string) :
  String.get k (str_drop i s) = String.get (i + k) s.
Proof.
  revert s; induction i as [|i IH]; intros s; [reflexivity|].
  destruct s as [|c t]; [now destruct k|]. cbn. apply IH.
Qed.

Lemma length_str_drop (i : nat) (s : string) :
  String.length (str_drop i s) = String.length s - i.
Proof.
  revert s; induction i as [|i IH]; intros s; cbn; [lia|].
  destruct s as [|c t]; [reflexivity|]. cbn. apply IH.
Qed.

Lemma get_in_range (i : nat) (s : string) :
  i < String.length s -> exists c, String.get i s = Some c.
Proof.
  revert i; induction s as [|c t IH]; intros i H; cbn in H; [lia|].
  destruct i as [|i]; [now exists c|]. cbn. apply IH. lia.
Qed.

Lemma get_out_of_range (i : nat) (s : string) :
  String.length s <= i -> String.get i s = None.
Proof.
  revert i; induction s as [|c t IH]; intros i H; [now destruct i|].
  cbn in H. destruct i as [|i]; [lia|]. cbn. apply IH. lia.
Qed.

Lemma str_drop_get (i : nat) (s : string) (c : ascii) :
  String.get i s = Some c -> exists t, str_drop i s = String c t.
Proof.
  revert s; induction i as [|i IH]; intros s H.
  - destruct s as [|d t]; [discriminate|]. cbn in H. inversion H; subst.
    now exists t.
  - destruct s as [|d t]; [discriminate|]. cbn in *. now apply IH.
Qed.

Lemma idx_str_drop (i k : nat) (s : string) :
  idx (str_drop i s) (Z.of_nat k) = idx s (Z.of_nat (i + k)).
Proof. now rewrite !idx_nat, get_str_drop. Qed.

Lemma idx_str_take (i m : nat) (s : string) :
  i < m -> idx (str_take m s) (Z.of_nat i) = idx s (Z.of_nat i).
Proof. intros H. now rewrite !idx_nat, get_str_take. Qed.

Lemma lastByte_get (s : string) :
  s <> EmptyString ->
  text.lastByte s = String.get (String.length s - 1) s.
Proof.
  induction s as [|c t IH]; [congruence|]. intros _.
  destruct t as [|d t']; [reflexivity|].
  change (text.lastByte (String c (String d t')))
    with (text.lastByte (String d t')).
  rewrite IH by discriminate. cbn. now rewrite !Nat.sub_0_r.
Qed.

Lemma firstByte_str_take (i : nat) (s : string) (c : ascii) :
  text.firstByte (str_take i s) = Some c -> text.firstByte s = Some c.
Proof.
  destruct i as [|i]; [discriminate|]. destruct s; [discriminate|]. exact id.
Qed.

(** The index [indexFunc] returns is that of a rune with [f r = truth]. *)
Lemma indexFuncFrom_found (f : Z -> bool) (truth : bool) (s : string) :
  forall skip i,
    strings.indexFuncFrom skip s f truth = Some i ->
    Bool.eqb (f (fst (utf8.DecodeRuneInString (str_drop i s)))) truth = true.
Proof.
  induction s as [|c t IH]; intros skip i H; [discriminate|].
  cbn [strings.indexFuncFrom] in H. destruct skip as [|k].
  - destruct (utf8.DecodeRuneInString (String c t)) as [r size] eqn:D.
    destruct (Bool.eqb (f r) truth) eqn:E.
    + inversion H; subst. cbn [str_drop]. now rewrite D.
    + destruct (strings.indexFuncFrom (size - 1) t f truth) as [i'|] eqn:R;
        [|discriminate].
      inversion H; subst. cbn [str_drop]. now apply IH with (skip := size - 1).
  - destruct (strings.indexFuncFrom k t f truth) as [i'|] eqn:R;
      [|discriminate].
    inversion H; subst. cbn [str_drop]. now apply IH with (skip := k).
Qed.

Lemma white_IsSpace (c : ascii) :
  text.white c ->
  (byte c < utf8.RuneSelf)%Z /\ unicode.IsSpace (byte c) = true.
Proof. exact (asciiSpace_IsSpace c). Qed.

(** What trimming leaves does not start with a white-space byte. *)
Lemma TrimSpace_firstByte (s : string) (c : ascii) :
  text.firstByte (strings.TrimSpace s) = Some c -> ~ text.white c.
Proof.
  unfold strings.TrimSpace, strings.TrimFunc. intros H W.
  apply white_IsSpace in W. destruct W as [Hc Hs].
  assert (L : text.firstByte (strings.TrimLeftFunc s unicode.IsSpace) = Some c).
  { revert H. unfold strings.TrimRightFunc.
    destruct (strings.lastIndexFunc _ _ _) as [i|].
    - destruct (utf8.RuneSelf <=? _)%Z; apply firstByte_str_take.
    - apply firstByte_str_take. }
  clear H. unfold strings.TrimLeftFunc, strings.indexFunc in L.
  destruct (strings.indexFuncFrom 0 s unicode.IsSpace false) as [i|] eqn:I;
    [|discriminate].
  apply indexFuncFrom_found in I.
  destruct (str_drop i s) as [|d t]; [discriminate|].
  cbn in L. inversion L; subst d.
  rewrite (DecodeRuneInString_ascii c t Hc) in I. cbn in I.
  rewrite Hs in I. discriminate.
Qed.

(** The last rune of a string that is not empty has a width between one
    and the length, and is the byte it starts at when that byte is below
    [RuneSelf]. *)
Lemma DecodeLastRuneInString_shape (s : string) (r : Z) (size : nat) :
  s <> EmptyString ->
  utf8.DecodeLastRuneInString s = (r, size) ->
  1 <= size <= String.length s
  /\ ((idx s (Z.of_nat (String.length s - size)) < utf8.RuneSelf)%Z ->
      r = idx s (Z.of_nat (String.length s - size))).
Proof.
  intros N. unfold utf8.DecodeLastRuneInString.
  assert (L : 1 <= String.length s) by (destruct s; cbn; [congruence | lia]).
  destruct (String.length s =? 0) eqn:E0; [apply Nat.eqb_eq in E0; lia|].
  replace (Z.of_nat (String.length s) - 1)%Z
    with (Z.of_nat (String.length s - 1)) by lia.
  destruct (idx s (Z.of_nat (String.length s - 1)) <? utf8.RuneSelf)%Z eqn:E1.
  { intros H; inversion H; subst. split; [lia | reflexivity]. }
  apply Z.ltb_ge in E1.
  set (lim := Z.max 0 (Z.of_nat (String.length s) - utf8.UTFMax)).
  pose proof (scanBack_le (Z.to_nat utf8.UTFMax) s
                (Z.of_nat (String.length s) - 2) lim) as Hs.
  set (z := utf8.scanBack (Z.to_nat utf8.UTFMax) s
              (Z.of_nat (String.length s) - 2) lim) in *.
  set (start := Z.to_nat (Z.max 0 z)).
  assert (Hstart : start + 2 <= String.length s \/ (start = 0 /\ String.length s = 1))
    by (subst start; lia).
  destruct (utf8.DecodeRuneInString (str_drop start s)) as [r' size'] eqn:D.
  destruct (start + size' =? String.length s) eqn:E.
  - apply Nat.eqb_eq in E. intros H; inversion H; subst r' size'.
    destruct Hstart as [Hstart | [H0 H1]].
    + split; [lia|]. intros A.
      replace (String.length s - size) with start in A by lia.
      destruct (get_in_range start s ltac:(lia)) as [c Gc].
      destruct (str_drop_get _ _ _ Gc) as [t Et].
      rewrite idx_nat, Gc in A. rewrite Et in D.
      rewrite (DecodeRuneInString_ascii c t A) in D. inversion D; subst. lia.
    + rewrite H0 in *. cbn [str_drop] in D.
      split; [lia|]. intros A.
      replace (String.length s - size) with 0 in * by lia.
      destruct s as [|c t]; [congruence|]. rewrite idx_head in A.
      rewrite (DecodeRuneInString_ascii c t A) in D. inversion D; subst.
      now rewrite idx_head.
  - intros H; inversion H; subst. split; [lia|]. intros A. lia.
Qed.

(** The index [lastIndexFunc] returns is where the last rune of a prefix
    of the string starts, and that rune has [f r = truth]. *)
Lemma lastIndexFuncFrom_found (f : Z -> bool) (truth : bool) (s : string) :
  forall fuel j0 i,
    strings.lastIndexFuncFrom fuel s j0 f truth = Some i ->
    exists j r size,
      1 <= j <= j0
      /\ utf8.DecodeLastRuneInString (str_take j s) = (r, size)
      /\ i = j - size /\ Bool.eqb (f r) truth = true.
Proof.
  induction fuel as [|fuel IH]; intros j0 i H; [discriminate|].
  cbn [strings.lastIndexFuncFrom] in H.
  destruct (j0 =? 0) eqn:E0; [discriminate|]. apply Nat.eqb_neq in E0.
  destruct (utf8.DecodeLastRuneInString (str_take j0 s)) as [r size] eqn:D.
  destruct (Bool.eqb (f r) truth) eqn:E.
  - inversion H; subst. exists j0, r, size. repeat split; try assumption; lia.
  - destruct (IH _ _ H) as (j & r' & size' & Hj & D' & -> & E').
    exists j, r', size'. repeat split; try assumption; lia.
Qed.

(** What trimming on the right leaves ends with a byte that is not below
    [RuneSelf] or fails [f]. *)
Lemma TrimRightFunc_lastByte (f : Z -> bool) (u : string) (c : ascii) :
  text.lastByte (strings.TrimRightFunc u f) = Some c ->
  (utf8.RuneSelf <= byte c)%Z \/ f (byte c) = false.
Proof.
  unfold strings.TrimRightFunc, strings.lastIndexFunc.
  destruct (strings.lastIndexFuncFrom _ u _ f false) as [i|] eqn:I;
    [|destruct u; discriminate].
  destruct (lastIndexFuncFrom_found _ _ _ _ _ _ I)
    as (j & r & size & Hj & D & -> & E).
  assert (Lj : String.length (str_take j u) = j)
    by (apply str_take_length; lia).
  assert (Nj : str_take j u <> EmptyString).
  { intros Z. rewrite Z in Lj. cbn in Lj. lia. }
  destruct (DecodeLastRuneInString_shape _ _ _ Nj D) as [Hsize A].
  rewrite Lj in Hsize, A.
  rewrite idx_str_take in A by lia.
  destruct (get_in_range (j - size) u ltac:(lia)) as [d Gd].
  destruct (utf8.RuneSelf <=? idx u (Z.of_nat (j - size)))%Z eqn:R.
  - apply Z.leb_le in R.
    destruct (str_drop_get _ _ _ Gd) as [t Et].
    destruct (utf8.DecodeRuneInString (str_drop (j - size) u)) as [r' w] eqn:Dw.
    destruct (DecodeRuneInString_shape _ _ _ Dw) as [[Z _] | [Hw B]].
    { rewrite Et in Z. discriminate. }
    rewrite length_str_drop in Hw. cbn [snd].
    assert (Lt : String.length (str_take (j - size + w) u) = j - size + w)
      by (apply str_take_length; lia).
    intros H. rewrite lastByte_get in H
      by (intros Z; rewrite Z in Lt; cbn in Lt; lia).
    rewrite Lt, get_str_take in H by lia.
    left.
    destruct (Nat.eq_dec w 1) as [->|Nw].
    + replace (j - size + 1 - 1) with (j - size) in H by lia.
      rewrite idx_nat, Gd in R. congruence.
    + specialize (B ltac:(lia) (w - 1) ltac:(lia)).
      rewrite idx_str_drop, idx_nat in B.
      replace (j - size + (w - 1)) with (j - size + w - 1) in B by lia.
      now rewrite H in B.
  - apply Z.leb_gt in R. specialize (A R).
    assert (Lt : String.length (str_take (j - size + 1) u) = j - size + 1)
      by (apply str_take_length; lia).
    intros H. rewrite lastByte_get in H
      by (intros Z; rewrite Z in Lt; cbn in Lt; lia).
    rewrite Lt, get_str_take in H by lia.
    replace (j - size + 1 - 1) with (j - size) in H by lia.
    right. rewrite idx_nat, Gd in A. rewrite H in Gd. inversion Gd; subst d.
    rewrite <- A. destruct (f r); [discriminate | reflexivity].
Qed.

(** What trimming leaves does not end with a white-space byte. *)
Lemma TrimSpace_lastByte (s : string) (c : ascii) :
  text.lastByte (strings.TrimSpace s) = Some c -> ~ text.white c.
Proof.
  unfold strings.TrimSpace, strings.TrimFunc. intros H W.
  apply white_IsSpace in W. destruct W as [Hc Hs].
  apply TrimRightFunc_lastByte in H. destruct H as [H|H]; [lia | congruence].
Qed.

(** What trimming leaves is a part of the string. *)
Lemma TrimSpace_has_byte (c : ascii) (s : string) :
  has_byte c (strings.TrimSpace s) = true -> has_byte c s = true.
Proof.
  unfold strings.TrimSpace, strings.TrimFunc. intros H.
  assert (L : has_byte c (strings.TrimLeftFunc s unicode.IsSpace) = true).
  { revert H. unfold strings.TrimRightFunc.
    destruct (strings.lastIndexFunc _ _ _) as [i|].
    - destruct (utf8.RuneSelf <=? _)%Z; apply has_byte_str_take.
    - apply has_byte_str_take. }
  revert L. unfold strings.TrimLeftFunc.
  destruct (strings.indexFunc s unicode.IsSpace false);
    [apply has_byte_str_drop | discriminate].
Qed.

Lemma RuneStart_ascii (c : ascii) :
  (byte c < utf8.RuneSelf)%Z -> utf8.RuneStart (byte c) = true.
Proof.
  intros H.
  destruct c as [[] [] [] [] [] [] [] []]; try reflexivity;
    vm_compute in H; discriminate.
Qed.

Lemma scanBack_stops (s : string) (q : nat) (lim : Z) :
  utf8.RuneStart (idx s (Z.of_nat q)) = true ->
  forall fuel init,
    (Z.of_nat q <= init)%Z ->
    (Z.of_nat q <= utf8.scanBack fuel s init lim)%Z.
Proof.
  intros R. induction fuel as [|fuel IH]; intros init H; cbn; [exact H|].
  destruct (init <? lim)%Z; [exact H|].
  destruct (utf8.RuneStart (idx s init)) eqn:E; [exact H|].
  apply IH. assert (init <> Z.of_nat q) by congruence. lia.
Qed.

Lemma DecodeLastRuneInString_ascii_last (s : string) :
  s <> EmptyString ->
  (idx s (Z.of_nat (String.length s - 1)) < utf8.RuneSelf)%Z ->
  utf8.DecodeLastRuneInString s =
  (idx s (Z.of_nat (String.length s - 1)), 1).
Proof.
  intros N H. unfold utf8.DecodeLastRuneInString.
  assert (L : 1 <= String.length s) by (destruct s; cbn; [congruence | lia]).
  destruct (String.length s =? 0) eqn:E0; [apply Nat.eqb_eq in E0; lia|].
  replace (Z.of_nat (String.length s) - 1)%Z
    with (Z.of_nat (String.length s - 1)) by lia.
  apply Z.ltb_lt in H. now rewrite H.
Qed.

(** Behind a byte below [RuneSelf], the last rune does not reach that
    byte. *)
Lemma DecodeLastRuneInString_behind_byte
  (s : string) (q : nat) (c : ascii) (r : Z) (size : nat) :
  String.get q s = Some c -> (byte c < utf8.RuneSelf)%Z ->
  q + 2 <= String.length s ->
  utf8.DecodeLastRuneInString s = (r, size) ->
  1 <= size /\ q + size < String.length s.
Proof.
  intros G Hc L. unfold utf8.DecodeLastRuneInString.
  destruct (String.length s =? 0) eqn:E0; [apply Nat.eqb_eq in E0; lia|].
  destruct (idx s (Z.of_nat (String.length s) - 1) <? utf8.RuneSelf)%Z.
  { intros H; inversion H; subst. lia. }
  set (lim := Z.max 0 (Z.of_nat (String.length s) - utf8.UTFMax)).
  pose proof (scanBack_le (Z.to_nat utf8.UTFMax) s
                (Z.of_nat (String.length s) - 2) lim) as Hle.
  assert (R : utf8.RuneStart (idx s (Z.of_nat q)) = true).
  { rewrite idx_nat, G. now apply RuneStart_ascii. }
  pose proof (scanBack_stops s q lim R (Z.to_nat utf8.UTFMax)
                (Z.of_nat (String.length s) - 2) ltac:(lia)) as Hge.
  set (z := utf8.scanBack (Z.to_nat utf8.UTFMax) s
              (Z.of_nat (String.length s) - 2) lim) in *.
  set (start := Z.to_nat (Z.max 0 z)).
  assert (Hstart : q <= start /\ start + 2 <= String.length s)
    by (subst start; lia).
  destruct (utf8.DecodeRuneInString (str_drop start s)) as [r' size'] eqn:D.
  destruct (start + size' =? String.length s) eqn:E.
  - apply Nat.eqb_eq in E. intros H; inversion H; subst r' size'.
    destruct (Nat.eq_dec start q) as [Q|Q].
    + rewrite Q in *. destruct (str_drop_get _ _ _ G) as [t Et].
      rewrite Et, (DecodeRuneInString_ascii c t Hc) in D.
      inversion D; subst. lia.
    + lia.
  - intros H; inversion H; subst. lia.
Qed.

(** Scanning backwards from behind a byte that is below [RuneSelf] and
    fails [f] finds a rune that fails [f]. *)
Lemma lastIndexFuncFrom_byte (f : Z -> bool) (u : string) (q : nat) (c : ascii) :
  String.get q u = Some c -> (byte c < utf8.RuneSelf)%Z ->
  f (byte c) = false ->
  forall fuel j,
    q < j <= String.length u -> j <= fuel ->
    strings.lastIndexFuncFrom fuel u j f false <> None.
Proof.
  intros G Hc Hf. induction fuel as [|fuel IH]; intros j Hj Hfuel; [lia|].
  cbn [strings.lastIndexFuncFrom].
  destruct (j =? 0) eqn:E0; [apply Nat.eqb_eq in E0; lia|].
  destruct (utf8.DecodeLastRuneInString (str_take j u)) as [r size] eqn:D.
  destruct (Bool.eqb (f r) false) eqn:E; [discriminate|].
  assert (Lj : String.length (str_take j u) = j)
    by (apply str_take_length; lia).
  assert (Gj : String.get q (str_take j u) = Some c)
    by (rewrite get_str_take by lia; exact G).
  destruct (Nat.eq_dec j (q + 1)) as [->|Nj].
  - rewrite DecodeLastRuneInString_ascii_last in D.
    + rewrite Lj in D. replace (q + 1 - 1) with q in D by lia.
      rewrite idx_nat, Gj in D. inversion D; subst.
      rewrite Hf in E. discriminate.
    + intros Z. rewrite Z in Lj. cbn in Lj. lia.
    + rewrite Lj. replace (q + 1 - 1) with q by lia.
      now rewrite idx_nat, Gj.
  - destruct (DecodeLastRuneInString_behind_byte _ q c r size Gj Hc
                ltac:(lia) D) as [S1 S2].
    rewrite Lj in S2. apply IH; lia.
Qed.

(** Scanning forwards up to a byte that is below [RuneSelf] and fails [f]
    finds a rune that fails [f], at that byte or before it. *)
Lemma indexFuncFrom_byte (f : Z -> bool) (c : ascii) :
  (byte c < utf8.RuneSelf)%Z -> f (byte c) = false ->
  forall s skip p,
    String.get p s = Some c ->
    (forall j, j < skip -> (utf8.RuneSelf <= idx s (Z.of_nat j))%Z) ->
    exists i, strings.indexFuncFrom skip s f false = Some i /\ i <= p.
Proof.
  intros Hc Hf. induction s as [|d t IH]; intros skip p G K.
  { destruct p; discriminate. }
  cbn [strings.indexFuncFrom]. destruct skip as [|k].
  - destruct (utf8.DecodeRuneInString (String d t)) as [r size] eqn:D.
    destruct (Bool.eqb (f r) false) eqn:E.
    + exists 0. split; [reflexivity | lia].
    + destruct p as [|p].
      * cbn in G. inversion G; subst d.
        rewrite (DecodeRuneInString_ascii c t Hc) in D. inversion D; subst.
        rewrite Hf in E. discriminate.
      * cbn in G.
        destruct (IH (size - 1) p G) as (i & I & Hi).
        { intros j Hj.
          destruct (DecodeRuneInString_shape _ _ _ D) as [[Z _] | [_ B]];
            [discriminate|].
          specialize (B ltac:(lia) (S j) ltac:(lia)).
          now rewrite idx_cons in B. }
        exists (S i). rewrite I. split; [reflexivity | lia].
  - destruct p as [|p].
    + cbn in G. inversion G; subst d.
      specialize (K 0 ltac:(lia)). rewrite idx_head in K. lia.
    + cbn in G.
      destruct (IH k p G) as (i & I & Hi).
      { intros j Hj. specialize (K (S j) ltac:(lia)).
        now rewrite idx_cons in K. }
      exists (S i). rewrite I. split; [reflexivity | lia].
Qed.

Lemma str_take_not_empty (m : nat) (u : string) :
  1 <= m -> u <> EmptyString -> str_take m u <> EmptyString.
Proof.
  intros Hm N. destruct m as [|m]; [lia|]. destruct u; [congruence|].
  discriminate.
Qed.

(** A string with a byte that is below [RuneSelf] and is not white space
    does not trim to nothing. *)
Lemma TrimSpace_byte (s : string) (p : nat) (c : ascii) :
  String.get p s = Some c -> (byte c < utf8.RuneSelf)%Z ->
  unicode.IsSpace (byte c) = false ->
  strings.TrimSpace s <> EmptyString.
Proof.
  intros G Hc Hs. unfold strings.TrimSpace, strings.TrimFunc.
  unfold strings.TrimLeftFunc, strings.indexFunc.
  destruct (indexFuncFrom_byte unicode.IsSpace c Hc Hs s 0 p G)
    as (i & I & Hi); [intros j Hj; lia|].
  rewrite I.
  assert (Gu : String.get (p - i) (str_drop i s) = Some c).
  { rewrite get_str_drop. now replace (i + (p - i)) with p by lia. }
  set (u := str_drop i s) in *.
  assert (Lu : p - i < String.length u).
  { destruct (Nat.lt_ge_cases (p - i) (String.length u)) as [H|H];
      [exact H|]. rewrite get_out_of_range in Gu by exact H. discriminate. }
  assert (Nu : u <> EmptyString).
  { intros Z. rewrite Z in Lu. cbn in Lu. lia. }
  unfold strings.TrimRightFunc, strings.lastIndexFunc.
  pose proof (lastIndexFuncFrom_byte unicode.IsSpace u (p - i) c Gu Hc Hs
                (String.length u) (String.length u) ltac:(lia) ltac:(lia))
    as F.
  destruct (strings.lastIndexFuncFrom _ u _ _ false) as [k|]; [|congruence].
  destruct (utf8.RuneSelf <=? idx u (Z.of_nat k))%Z eqn:R.
  - apply str_take_not_empty; [|exact Nu].
    destruct (utf8.DecodeRuneInString (str_drop k u)) as [r w] eqn:D.
    destruct (DecodeRuneInString_shape _ _ _ D) as [[Z _] | [Hw _]].
    + apply Z.leb_le in R. rewrite idx_nat in R.
      destruct (String.get k u) as [d|] eqn:Gk.
      * destruct (str_drop_get _ _ _ Gk) as [t Et]. congruence.
      * unfold utf8.RuneSelf in R. lia.
    + cbn [snd]. lia.
  - apply str_take_not_empty; [lia | exact Nu].
Qed.

Lemma has_byte_get (c : ascii) (s : string) :
  has_byte c s = true -> exists p, String.get p s = Some c.
Proof.
  induction s as [|d t IH]; [discriminate|]. cbn.
  destruct (Ascii.eqb d c) eqn:E.
  - apply Ascii.eqb_eq in E. subst d. intros _. now exists 0.
  - cbn. intros H. destruct (IH H) as [p G]. now exists (S p).
Qed.

(** A line with a colon is not blank. *)
Lemma blank_colon (line : string) :
  has_byte COLON line = true -> legacy.blank line = false.
Proof.
  intros H. destruct (has_byte_get _ _ H) as [p G].
  unfold legacy.blank. apply String.eqb_neq.
  apply (TrimSpace_byte line p COLON G); now vm_compute.
Qed.

Lemma idx_1 (a : ascii) (t : string) : idx (String a t) 1 = idx t 0.
Proof. reflexivity. Qed.

Lemma idx_2 (a : ascii) (t : string) : idx (String a t) 2 = idx t 1.
Proof. reflexivity. Qed.

Lemma idx_3 (a : ascii) (t : string) : idx (String a t) 3 = idx t 2.
Proof. reflexivity. Qed.

Lemma idx_nil (i : Z) : idx EmptyString i = 0%Z.
Proof.
  unfold idx. destruct (i <? 0)%Z; [reflexivity|].
  now destruct (Z.to_nat i).
Qed.

(** A byte below [RuneSelf] behind a string does not change its first
    rune. *)
Lemma DecodeRuneInString_snoc (s : string) (c : ascii) :
  s <> EmptyString -> (byte c < utf8.RuneSelf)%Z ->
  utf8.DecodeRuneInString (s ++ String c "") = utf8.DecodeRuneInString s.
Proof.
  intros N Hc. pose proof (byte_range c) as Bc.
  destruct s as [|c0 [|c1 [|c2 [|c3 t]]]]; [congruence | | | |];
    pose proof (byte_range c0) as B0;
    unfold utf8.DecodeRuneInString;
    cbn [append String.length];
    rewrite ?idx_3, ?idx_2, ?idx_1, ?idx_head, ?idx_nil;
    unfold utf8.RuneSelf in Hc;
    generalize dependent (byte c0); intros x0 B0;
    generalize dependent (byte c); intros x Hc Bc;
    try (generalize (byte c1); intros x1);
    try (generalize (byte c2); intros x2);
    try (generalize (byte c3); intros x3);
    unfold utf8.first;
    repeat match goal with
           | |- context [if (x0 <? ?k)%Z then _ else _] =>
               destruct (x0 <? k)%Z eqn:?
           | |- context [if (x0 =? ?k)%Z then _ else _] =>
               destruct (x0 =? k)%Z eqn:?
           end;
    cbn [utf8.as_ utf8.xx utf8.s1 utf8.s2 utf8.s3 utf8.s4 utf8.s5 utf8.s6
         utf8.s7];
    cbn -[Z.of_nat idx String.length Z.ltb Z.leb Nat.ltb Nat.leb];
    try reflexivity;
    repeat match goal with
           | |- context [if ?b then _ else _] => destruct b eqn:?
           end;
    try reflexivity; bools;
    unfold utf8.as_, utf8.xx, utf8.s1, utf8.s2, utf8.s3, utf8.s4, utf8.s5,
      utf8.s6, utf8.s7, utf8.RuneSelf, utf8.locb, utf8.hicb in *;
    cbn in *; lia.
Qed.

Lemma str_drop_app_le (i : nat) (s x : string) :
  i <= String.length s -> str_drop i (s ++ x) = (str_drop i s ++ x)%string.
Proof.
  revert s; induction i as [|i IH]; intros s H; [reflexivity|].
  destruct s as [|c t]; cbn in *; [lia|]. apply IH. lia.
Qed.

Lemma str_take_app_le (m : nat) (s x : string) :
  m <= String.length s -> str_take m (s ++ x) = str_take m s.
Proof.
  revert s; induction m as [|m IH]; intros s H; [reflexivity|].
  destruct s as [|c t]; cbn in *; [lia|]. rewrite IH; [reflexivity | lia].
Qed.

Lemma str_take_all (m : nat) (s : string) :
  String.length s <= m -> str_take m s = s.
Proof.
  revert s; induction m as [|m IH]; intros s H.
  - destruct s; cbn in *; [reflexivity | lia].
  - destruct s as [|c t]; cbn in *; [reflexivity|]. rewrite IH; [reflexivity | lia].
Qed.

Lemma get_app_lt (i : nat) (s x : string) :
  i < String.length s -> String.get i (s ++ x) = String.get i s.
Proof.
  revert i; induction s as [|c t IH]; intros i H; cbn in *; [lia|].
  destruct i as [|i]; [reflexivity|]. apply IH. lia.
Qed.

Lemma get_app_last (s : string) (c : ascii) (x : string) :
  String.get (String.length s) (s ++ String c x) = Some c.
Proof. induction s as [|d t IH]; [reflexivity | exact IH]. Qed.

Lemma indexFuncFrom_lt (f : Z -> bool) (truth : bool) (s : string) :
  forall skip i,
    strings.indexFuncFrom skip s f truth = Some i -> i < String.length s.
Proof.
  induction s as [|c t IH]; intros skip i H; [discriminate|].
  cbn [strings.indexFuncFrom] in H. cbn [String.length].
  destruct skip as [|k].
  - destruct (utf8.DecodeRuneInString (String c t)) as [r size].
    destruct (Bool.eqb (f r) truth); [inversion H; lia|].
    destruct (strings.indexFuncFrom (size - 1) t f truth) as [i'|] eqn:R;
      [|discriminate].
    inversion H; subst. apply IH in R. lia.
  - destruct (strings.indexFuncFrom k t f truth) as [i'|] eqn:R;
      [|discriminate].
    inversion H; subst. apply IH in R. lia.
Qed.

(** A white-space byte behind a string does not change where the first
    rune that is not white space is. *)
Lemma indexFuncFrom_snoc (c : ascii) :
  text.white c ->
  forall s skip,
    skip <= String.length s ->
    strings.indexFuncFrom skip (s ++ String c "") unicode.IsSpace false =
    strings.indexFuncFrom skip s unicode.IsSpace false.
Proof.
  intros W. destruct (white_IsSpace c W) as [Hc Hs].
  induction s as [|d t IH]; intros skip H.
  - cbn in H. assert (skip = 0) by lia. subst skip.
    cbn [append strings.indexFuncFrom].
    rewrite (DecodeRuneInString_ascii c "" Hc), Hs. reflexivity.
  - change ((String d t ++ String c "")%string)
      with (String d (t ++ String c "")).
    cbn [strings.indexFuncFrom]. destruct skip as [|k].
    + change (String d (t ++ String c ""))
        with ((String d t ++ String c "")%string).
      rewrite (DecodeRuneInString_snoc (String d t) c) by (discriminate || exact Hc).
      destruct (utf8.DecodeRuneInString (String d t)) as [r size] eqn:D.
      destruct (Bool.eqb (unicode.IsSpace r) false); [reflexivity|].
      rewrite IH; [reflexivity|].
      destruct (DecodeRuneInString_shape _ _ _ D) as [[Z _] | [Hw _]];
        [discriminate|]. cbn in Hw. lia.
    + rewrite IH; [reflexivity|]. cbn in H. lia.
Qed.

Lemma lastIndexFuncFrom_prefix (f : Z -> bool) (truth : bool) (u x : string) :
  forall fuel j,
    j <= String.length u ->
    strings.lastIndexFuncFrom fuel (u ++ x) j f truth =
    strings.lastIndexFuncFrom fuel u j f truth.
Proof.
  induction fuel as [|fuel IH]; intros j H; [reflexivity|].
  cbn [strings.lastIndexFuncFrom].
  destruct (j =? 0); [reflexivity|].
  rewrite (str_take_app_le j u x H).
  destruct (utf8.DecodeLastRuneInString (str_take j u)) as [r size].
  destruct (Bool.eqb (f r) truth); [reflexivity|].
  apply IH. lia.
Qed.

Lemma lastIndexFunc_snoc (c : ascii) (u : string) :
  text.white c ->
  strings.lastIndexFunc (u ++ String c "") unicode.IsSpace false =
  strings.lastIndexFunc u unicode.IsSpace false.
Proof.
  intros W. destruct (white_IsSpace c W) as [Hc Hs].
  unfold strings.lastIndexFunc.
  assert (L : String.length (u ++ String c "") = S (String.length u))
    by (rewrite length_append; cbn; lia).
  rewrite L. cbn [strings.lastIndexFuncFrom Nat.eqb].
  rewrite str_take_all by lia.
  rewrite DecodeLastRuneInString_ascii_last.
  - rewrite L. replace (S (String.length u) - 1) with (String.length u) by lia.
    rewrite idx_nat, get_app_last, Hs. cbn [Bool.eqb].
    replace (S (String.length u) - 1) with (String.length u) by lia.
    now apply lastIndexFuncFrom_prefix.
  - destruct u; discriminate.
  - rewrite L. replace (S (String.length u) - 1) with (String.length u) by lia.
    now rewrite idx_nat, get_app_last.
Qed.

Lemma lastIndexFunc_lt (f : Z -> bool) (truth : bool) (u : string) (i : nat) :
  strings.lastIndexFunc u f truth = Some i -> i < String.length u.
Proof.
  unfold strings.lastIndexFunc. intros H.
  destruct (lastIndexFuncFrom_found _ _ _ _ _ _ H)
    as (j & r & size & Hj & D & -> & _).
  assert (Lj : String.length (str_take j u) = j)
    by (apply str_take_length; lia).
  assert (Nj : str_take j u <> EmptyString).
  { intros Z. rewrite Z in Lj. cbn in Lj. lia. }
  destruct (DecodeLastRuneInString_shape _ _ _ Nj D) as [Hsize _]. lia.
Qed.

Lemma TrimRightFunc_snoc (c : ascii) (u : string) :
  text.white c ->
  strings.TrimRightFunc (u ++ String c "") unicode.IsSpace =
  strings.TrimRightFunc u unicode.IsSpace.
Proof.
  intros W. destruct (white_IsSpace c W) as [Hc Hs].
  unfold strings.TrimRightFunc. rewrite (lastIndexFunc_snoc c u W).
  destruct (strings.lastIndexFunc u unicode.IsSpace false) as [i|] eqn:I;
    [|reflexivity].
  pose proof (lastIndexFunc_lt _ _ _ _ I) as Li.
  rewrite !idx_nat, (get_app_lt i u _ Li).
  rewrite (str_drop_app_le i u _ ltac:(lia)).
  assert (Nd : str_drop i u <> EmptyString).
  { intros Z. pose proof (length_str_drop i u) as L. rewrite Z in L.
    cbn in L. lia. }
  rewrite (DecodeRuneInString_snoc _ c Nd Hc).
  destruct (utf8.DecodeRuneInString (str_drop i u)) as [r w] eqn:D.
  destruct (DecodeRuneInString_shape _ _ _ D) as [[Z _] | [Hw _]];
    [congruence|].
  rewrite length_str_drop in Hw. cbn [snd].
  destruct (match String.get i u with Some d => byte d | None => 0%Z end)
    as [|q|q]; cbn -[str_take]; try (destruct (utf8.RuneSelf <=? _)%Z);
    apply str_take_app_le; lia.
Qed.

(** White space behind a string does not change what trimming leaves. *)
Lemma TrimSpace_snoc (c : ascii) (s : string) :
  text.white c ->
  strings.TrimSpace (s ++ String c "") = strings.TrimSpace s.
Proof.
  intros W. unfold strings.TrimSpace, strings.TrimFunc, strings.TrimLeftFunc,
    strings.indexFunc.
  rewrite (indexFuncFrom_snoc c W s 0) by lia.
  destruct (strings.indexFuncFrom 0 s unicode.IsSpace false) as [i|] eqn:I;
    [|reflexivity].
  apply indexFuncFrom_lt in I.
  rewrite (str_drop_app_le i s _ ltac:(lia)).
  now apply TrimRightFunc_snoc.
Qed.

Lemma TrimSpace_white_after (ws : string) :
  (forall c, has_byte c ws = true -> text.white c) ->
  forall v, strings.TrimSpace (v ++ ws) = strings.TrimSpace v.
Proof.
  induction ws as [|c ws IH]; intros H v.
  - now rewrite append_empty_r.
  - replace (v ++ String c ws)%string with ((v ++ String c "") ++ ws)%string
      by (now rewrite append_assoc).
    rewrite IH.
    + apply TrimSpace_snoc. apply H. cbn. now rewrite Ascii.eqb_refl.
    + intros d Hd. apply H. cbn. rewrite Hd. apply orb_true_r.
Qed.

Lemma TrimSpace_white_before (ws v : string) :
  (forall c, has_byte c ws = true -> text.white c) ->
  strings.TrimSpace (ws ++ v) = strings.TrimSpace v.
Proof.
  induction ws as [|c ws IH]; intros H; [reflexivity|].
  cbn [append].
  destruct (white_IsSpace c) as [Hc Hs];
    [apply H; cbn; now rewrite Ascii.eqb_refl|].
  rewrite (TrimSpace_space c _ Hc Hs). apply IH.
  intros d Hd. apply H. cbn. rewrite Hd. apply orb_true_r.
Qed.

(** ** Lines with a colon, and the white space around a value *)

Lemma has_byte_entry (k x : string) :
  has_byte COLON (k ++ String COLON x) = true.
Proof.
  rewrite has_byte_app. apply orb_true_iff. right. reflexivity.
Qed.

(** X10. A line with a colon is never taken for a blank line: whatever
    else it holds, it is read as an entry, the trimmed text behind its
    first colon assigned under the text before it; and a line that is
    blank has no colon. *)
Theorem X10_colon_line_is_an_entry :
  (forall k v lines res,
      has_byte COLON k = false ->
      version.parseLines ((k ++ String COLON v)%string :: lines) res =
      version.parseLines lines (version.setField k (strings.TrimSpace v) res))
  /\ (forall line,
         strings.TrimSpace line = EmptyString ->
         has_byte COLON line = false).
Proof.
  split.
  - intros k v lines res K. apply parseLines_entry.
    + apply blank_colon, has_byte_entry.
    + apply cut_some. now split.
  - intros line B. destruct (has_byte COLON line) eqn:H; [|reflexivity].
    apply blank_colon in H. unfold legacy.blank in H.
    apply String.eqb_neq in H. congruence.
Qed.

Lemma X10_colon_line_is_an_entry_witness :
  version.parseLines [" : "%string; "Version:1"%string] version.BuildInfo_zero
  = ({| version.Version := "1"; version.GitRevision := "";
        version.GolangVersion := ""; version.BuildStatus := "";
        version.GitTag := ""; version.Vendor := "" |}, None)
  /\ has_byte COLON "   " = false.
Proof.
  destruct X10_colon_line_is_an_entry as [He Hb]. split.
  - change " : "%string with (" " ++ String COLON " ")%string.
    rewrite (He " "%string " "%string) by reflexivity.
    change "Version:1"%string with ("Version" ++ String COLON "1")%string.
    rewrite (He "Version"%string "1"%string) by reflexivity.
    vm_compute. reflexivity.
  - apply (Hb "   "%string). vm_compute. reflexivity.
Defined.

(** X11. White-space bytes between the colon and the value, and behind
    the value, do not change what a line assigns. *)
Theorem X11_white_space_around_value
  (k ws1 v ws2 : string) (lines : list string) (res : version.BuildInfo) :
  has_byte COLON k = false ->
  (forall c, has_byte c ws1 = true -> text.white c) ->
  (forall c, has_byte c ws2 = true -> text.white c) ->
  version.parseLines
    ((k ++ String COLON (ws1 ++ v ++ ws2))%string :: lines) res =
  version.parseLines ((k ++ String COLON v)%string :: lines) res.
Proof.
  intros K W1 W2.
  assert (B : forall x, legacy.blank (k ++ String COLON x) = false).
  { intros x. apply blank_colon, has_byte_entry. }
  assert (C : forall x, legacy.cut COLON (k ++ String COLON x) = Some (k, x)).
  { intros x. apply cut_some. now split. }
  rewrite (parseLines_entry _ _ _ k _ (B _) (C _)).
  rewrite (parseLines_entry _ _ _ k _ (B _) (C _)).
  rewrite (TrimSpace_white_before ws1 _ W1).
  now rewrite (TrimSpace_white_after ws2 W2).
Qed.

Lemma X11_white_space_around_value_witness :
  version.parseLines ["GitTag:   1.0:rc1 "%string] version.BuildInfo_zero =
  version.parseLines ["GitTag:1.0:rc1"%string] version.BuildInfo_zero.
Proof.
  change "GitTag:   1.0:rc1 "%string
    with ("GitTag" ++ String COLON ("   " ++ "1.0:rc1" ++ " "))%string.
  change "GitTag:1.0:rc1"%string
    with ("GitTag" ++ String COLON "1.0:rc1")%string.
  apply X11_white_space_around_value.
  - reflexivity.
  - intros c H. cbn [has_byte] in H.
    destruct (Ascii.eqb " " c) eqn:E; [|cbn in H; discriminate].
    apply Ascii.eqb_eq in E. subst c. cbn. tauto.
  - intros c H. cbn [has_byte] in H.
    destruct (Ascii.eqb " " c) eqn:E; [|cbn in H; discriminate].
    apply Ascii.eqb_eq in E. subst c. cbn. tauto.
Defined.

(** ** Line ends *)

Lemma white_CR : text.white text.CR.
Proof. cbn. tauto. Qed.

(** A carriage return at the end of a line that is blank or has a colon
    does not change what the loop does with the line. *)
Lemma parseLines_CR (l : string) (lines lines' : list string) :
  legacy.wellFormed l ->
  (forall res, version.parseLines lines res = version.parseLines lines' res) ->
  forall res,
    version.parseLines ((l ++ String text.CR "")%string :: lines) res =
    version.parseLines (l :: lines') res.
Proof.
  intros W E res.
  assert (T : strings.TrimSpace (l ++ String text.CR "") = strings.TrimSpace l)
    by (apply TrimSpace_snoc, white_CR).
  destruct (legacy.blank l) eqn:B.
  - rewrite (parseLines_blank l) by exact B.
    rewrite parseLines_blank; [apply E|].
    unfold legacy.blank in *. now rewrite T.
  - destruct W as [W|W]; [congruence|].
    destruct (legacy.cut COLON l) as [[k v]|] eqn:C;
      [|apply cut_none in C; congruence].
    rewrite (parseLines_entry l _ _ k v B C).
    apply cut_some in C. destruct C as [-> K].
    rewrite (parseLines_entry _ _ _ k (v ++ String text.CR "")).
    + rewrite (TrimSpace_snoc text.CR v white_CR). apply E.
    + unfold legacy.blank in *. now rewrite T.
    + apply cut_some. split; [|exact K]. now rewrite append_assoc.
Qed.

Lemma Join_cons2 (l l' : string) (rest : list string) (sep : string) :
  strings.Join (l :: l' :: rest) sep =
  (l ++ sep ++ strings.Join (l' :: rest) sep)%string.
Proof. reflexivity. Qed.

Lemma parseLines_CRLF (lines : list string) :
  Forall (fun l => has_byte LF l = false) lines ->
  Forall legacy.wellFormed (removelast lines) ->
  forall res,
    version.parseLines
      (strings.Split (strings.Join lines text.CRLF) (String LF "")) res =
    version.parseLines
      (strings.Split (strings.Join lines (String LF "")) (String LF "")) res.
Proof.
  induction lines as [|l lines IH]; intros N W res; [reflexivity|].
  destruct lines as [|l' rest]; [reflexivity|].
  rewrite !Join_cons2.
  inversion N as [|? ? Nl N']; subst.
  change (removelast (l :: l' :: rest)) with (l :: removelast (l' :: rest)) in W.
  inversion W as [|? ? Wl W']; subst.
  unfold text.CRLF.
  replace (l ++ String text.CR (String LF "")
             ++ strings.Join (l' :: rest) (String text.CR (String LF "")))%string
    with ((l ++ String text.CR "")
            ++ String LF (strings.Join (l' :: rest)
                            (String text.CR (String LF ""))))%string
    by (now rewrite append_assoc).
  cbn [append].
  rewrite (Split_sep LF (l ++ String text.CR "")).
  - rewrite (Split_sep LF l _ Nl).
    apply parseLines_CR; [exact Wl|].
    intros res'. now apply IH.
  - rewrite has_byte_app, Nl. reflexivity.
Qed.

(** X12. Lines joined by carriage return and line feed are read as the
    same lines joined by line feeds, when every line but the last is blank
    or has a colon. *)
Theorem X12_CRLF_line_ends (lines : list string) :
  Forall (fun l => has_byte LF l = false) lines ->
  Forall legacy.wellFormed (removelast lines) ->
  version.NewBuildInfoFromOldString (strings.Join lines text.CRLF) =
  version.NewBuildInfoFromOldString (strings.Join lines (String LF "")).
Proof.
  intros N W. unfold version.NewBuildInfoFromOldString.
  now apply parseLines_CRLF.
Qed.

Lemma X12_CRLF_line_ends_witness :
  version.NewBuildInfoFromOldString
    (strings.Join ["Version: 1.2.3"; "GitTag: 1.2.3"; ""; "bad"]%string
                  text.CRLF)
  = (version.BuildInfo_zero, Some (legacy.invalidField "bad")).
Proof.
  rewrite (X12_CRLF_line_ends
             ["Version: 1.2.3"; "GitTag: 1.2.3"; ""; "bad"]%string).
  - vm_compute. reflexivity.
  - repeat constructor.
  - cbn [removelast].
    constructor; [right; vm_compute; reflexivity|].
    constructor; [right; vm_compute; reflexivity|].
    constructor; [left; vm_compute; reflexivity|].
    constructor.
Defined.

(** ** The values of an accepted record *)

Lemma lastValue_In (key w : string) (es : list (string * string)) :
  legacy.lastValue key es = Some w -> In (key, w) es.
Proof.
  induction es as [|[k v] es IH]; [discriminate|].
  cbn [legacy.lastValue].
  destruct (legacy.lastValue key es) as [w'|].
  - intros H; inversion H; subst. right. now apply IH.
  - destruct (String.eqb k key) eqn:E; [|discriminate].
    apply String.eqb_eq in E. subst k. intros H; inversion H; subst.
    now left.
Qed.

Lemma entries_In (k w : string) (lines : list string) :
  In (k, w) (legacy.entries lines) ->
  exists line v,
    In line lines /\ legacy.cut COLON line = Some (k, v)
    /\ w = strings.TrimSpace v.
Proof.
  induction lines as [|line lines IH]; [intros []|].
  cbn [legacy.entries].
  assert (R : In (k, w) (legacy.entries lines) ->
              exists line0 v,
                In line0 (line :: lines)
                /\ legacy.cut COLON line0 = Some (k, v)
                /\ w = strings.TrimSpace v).
  { intros H. destruct (IH H) as (l0 & v & I & C & E).
    exists l0, v. repeat split; try assumption. now right. }
  destruct (legacy.blank line); [exact R|].
  destruct (legacy.cut COLON line) as [[k' v']|] eqn:C; [|exact R].
  intros [H|H]; [|now apply R].
  inversion H; subst. exists line, v'. repeat split; [now left | exact C].
Qed.

(** X13. In a record [NewBuildInfoFromOldString] returns without error,
    no recognized field holds a line feed, and none starts or ends with a
    white-space byte (tab, line feed, vertical tab, form feed, carriage
    return or space). *)
Theorem X13_fields_are_trimmed
  (s : string) (r : version.BuildInfo) (key : string) :
  version.NewBuildInfoFromOldString s = (r, None) ->
  In key legacy.recognized ->
  has_byte LF (legacy.field key r) = false
  /\ (forall c, text.firstByte (legacy.field key r) = Some c -> ~ text.white c)
  /\ (forall c, text.lastByte (legacy.field key r) = Some c -> ~ text.white c).
Proof.
  unfold version.NewBuildInfoFromOldString. intros H K.
  apply parseLines_recordFrom in H. subst r.
  rewrite (field_recordFrom key _ _ K). unfold legacy.fieldFrom.
  destruct (legacy.lastValue key _) as [w|] eqn:L.
  - apply lastValue_In, entries_In in L.
    destruct L as (line & v & I & C & ->).
    split; [|split].
    + destruct (has_byte LF (strings.TrimSpace v)) eqn:E; [|reflexivity].
      apply TrimSpace_has_byte in E.
      destruct (Split_Join LF s) as [_ F].
      rewrite Forall_forall in F. specialize (F line I).
      apply cut_some in C. destruct C as [-> _].
      rewrite has_byte_app in F. cbn in F. rewrite E in F.
      rewrite !orb_true_r in F. discriminate.
    + intros c. apply TrimSpace_firstByte.
    + intros c. apply TrimSpace_lastByte.
  - assert (E : legacy.field key version.BuildInfo_zero = EmptyString).
    { repeat (destruct K as [<-|K]; [reflexivity|]). destruct K. }
    rewrite E. repeat split; discriminate.
Qed.

Lemma X13_fields_are_trimmed_witness :
  has_byte LF (legacy.field "Version"
                 (fst (version.NewBuildInfoFromOldString samples.twice)))
  = false.
Proof.
  apply (X13_fields_are_trimmed samples.twice _ "Version").
  - vm_compute. reflexivity.
  - vm_compute. tauto.
Defined.

(** ** Trimming twice *)


Lemma length_str_take_min (m : nat) (s : string) :
  String.length (str_take m s) = Nat.min m (String.length s).
Proof.
  revert s; induction m as [|m IH]; intros s; [reflexivity|].
  destruct s as [|c t]; [reflexivity|]. cbn. now rewrite IH.
Qed.

Lemma idx_str_take_ge (m j : nat) (s : string) :
  m <= j -> idx (str_take m s) (Z.of_nat j) = 0%Z.
Proof.
  intros H. rewrite idx_nat, get_out_of_range; [reflexivity|].
  rewrite length_str_take_min. lia.
Qed.

(** Case analysis over the branches of [DecodeRuneInString], one leaf at
    a time: first the branches of the premise, then those of the goal. *)
Ltac rune_leaf :=
  try reflexivity; bools;
  unfold utf8.as_, utf8.xx, utf8.s1, utf8.s2, utf8.s3, utf8.s4, utf8.s5,
    utf8.s6, utf8.s7, utf8.RuneSelf, utf8.locb, utf8.hicb in *;
  cbn in *; lia.

Ltac rune_goal_branches :=
  lazymatch goal with
  | |- context [if ?b then _ else _] =>
      let E := fresh "E" in destruct b eqn:E; rune_goal_branches
  | _ => rune_leaf
  end.

Ltac rune_premise_branches :=
  lazymatch goal with
  | |- ?A -> _ =>
      lazymatch A with
      | context [if ?b then _ else _] =>
          let E := fresh "E" in destruct b eqn:E; rune_premise_branches
      | _ =>
          let H := fresh "H" in
          intros H; inversion H; subst; clear H; cbn [Nat.leb];
          rune_goal_branches
      end
  end.

Ltac rune_values :=
  cbv zeta;
  repeat match goal with
         | |- context [Z.lor ?a ?b] =>
             let v := fresh "v" in generalize (Z.lor a b); intros v
         end.

Ltac rune_first x0 :=
  lazymatch goal with
  | |- context [if (x0 <? ?k)%Z then _ else _] =>
      let E := fresh "E" in destruct (x0 <? k)%Z eqn:E; rune_first x0
  | |- context [if (x0 =? ?k)%Z then _ else _] =>
      let E := fresh "E" in destruct (x0 =? k)%Z eqn:E; rune_first x0
  | _ =>
      cbn [utf8.as_ utf8.xx utf8.s1 utf8.s2 utf8.s3 utf8.s4 utf8.s5 utf8.s6
           utf8.s7];
      cbn -[Z.of_nat idx String.length Z.ltb Z.leb Nat.ltb Nat.leb Nat.min];
      rune_premise_branches
  end.

(** Cutting a string behind its first rune keeps the rune; cutting it
    inside the rune leaves an invalid byte. *)
Lemma DecodeRuneInString_take (s : string) (m : nat) (r : Z) (w : nat) :
  1 <= m ->
  utf8.DecodeRuneInString s = (r, w) ->
  utf8.DecodeRuneInString (str_take m s) =
  if w <=? m then (r, w) else (utf8.RuneError, 1).
Proof.
  intros Hm.
  destruct (String.eqb_spec s "") as [->|N].
  { destruct m; [lia|]. cbn. intros H; inversion H. reflexivity. }
  assert (Hn : 1 <= String.length s) by (destruct s; cbn; [congruence | lia]).
  clear N.
  destruct m as [|[|[|[|m]]]]; [lia| | | |];
    (unfold utf8.DecodeRuneInString;
     change 0%Z with (Z.of_nat 0); change 1%Z with (Z.of_nat 1);
     change 2%Z with (Z.of_nat 2); change 3%Z with (Z.of_nat 3);
     rewrite (idx_str_take 0 _ s) by lia;
     first [ rewrite (idx_str_take 1 _ s) by lia
           | rewrite (idx_str_take_ge _ 1 s) by lia ];
     first [ rewrite (idx_str_take 2 _ s) by lia
           | rewrite (idx_str_take_ge _ 2 s) by lia ];
     first [ rewrite (idx_str_take 3 _ s) by lia
           | rewrite (idx_str_take_ge _ 3 s) by lia ];
     rewrite length_str_take_min;
     generalize dependent (String.length s); intros n Hn;
     match goal with
     | |- context [Nat.min ?a n] =>
         let k := fresh "k" in
         let Ek := fresh "Ek" in
         remember (Nat.min a n) as k eqn:Ek;
         assert (Hk : k <= n /\ k <= a /\ (k = a \/ k = n)) by lia;
         clear Ek
     end;
     generalize (idx s (Z.of_nat 0)); intros x0;
     generalize (idx s (Z.of_nat 1)); intros x1;
     generalize (idx s (Z.of_nat 2)); intros x2;
     generalize (idx s (Z.of_nat 3)); intros x3;
     clear s;
     rune_values;
     unfold utf8.first;
     rune_first x0).
Qed.


(** A rune of two bytes or more read from the start of a string stays
    when the string is made longer. *)
Lemma DecodeRuneInString_extend (s : string) (m : nat) (r : Z) (w : nat) :
  utf8.DecodeRuneInString (str_take m s) = (r, w) -> 2 <= w ->
  utf8.DecodeRuneInString s = (r, w).
Proof.
  intros H W.
  assert (Hm : 1 <= m).
  { destruct m; [|lia]. cbn in H. inversion H. lia. }
  destruct (utf8.DecodeRuneInString s) as [r0 w0] eqn:D.
  rewrite (DecodeRuneInString_take s m r0 w0 Hm D) in H.
  destruct (w0 <=? m); inversion H; subst; [reflexivity | lia].
Qed.

Lemma RuneStart_continuation (c : ascii) :
  utf8.RuneStart (byte c) = false <-> (0x80 <= byte c <= 0xBF)%Z.
Proof.
  split.
  - intros H.
    destruct c as [[] [] [] [] [] [] [] []];
      first [ discriminate H | vm_compute; split; discriminate ].
  - intros [H1 H2].
    destruct c as [[] [] [] [] [] [] [] []];
      first [ reflexivity
            | exfalso; apply H1; reflexivity
            | exfalso; apply H2; reflexivity ].
Qed.

Lemma RuneStart_idx (s : string) (i : nat) :
  utf8.RuneStart (idx s (Z.of_nat i)) = false ->
  (0x80 <= idx s (Z.of_nat i) <= 0xBF)%Z /\ i < String.length s.
Proof.
  rewrite idx_nat. destruct (String.get i s) as [c|] eqn:G.
  - intros H. apply RuneStart_continuation in H. split; [exact H|].
    destruct (Nat.lt_ge_cases i (String.length s)) as [L|L]; [exact L|].
    rewrite get_out_of_range in G by exact L. discriminate.
  - vm_compute. discriminate.
Qed.

(** The second byte of a rune of two bytes or more is a continuation
    byte, and a rune of one byte that starts at a byte not below
    [RuneSelf] is [RuneError]; a rune that starts at a continuation byte
    is [RuneError]. *)
Lemma DecodeRuneInString_bytes (s : string) (r : Z) (w : nat) :
  utf8.DecodeRuneInString s = (r, w) ->
  (2 <= w -> utf8.RuneStart (idx s 1) = false)
  /\ (w = 1 -> (utf8.RuneSelf <= idx s 0)%Z -> r = utf8.RuneError)
  /\ (utf8.RuneStart (idx s 0) = false -> r = utf8.RuneError).
Proof.
  destruct s as [|c0 t].
  { cbn. intros H; inversion H; subst. repeat split; intros; (lia || reflexivity). }
  assert (R1 : utf8.RuneStart (idx (String c0 t) 1) = false <->
               (0x80 <= idx (String c0 t) 1 <= 0xBF)%Z).
  { rewrite idx_1. destruct t as [|c1 t'].
    - rewrite idx_nil. vm_compute. split; [discriminate|].
      intros [H _]. now elim H.
    - rewrite idx_head. apply RuneStart_continuation. }
  assert (R0 : utf8.RuneStart (idx (String c0 t) 0) = false <->
               (0x80 <= idx (String c0 t) 0 <= 0xBF)%Z).
  { rewrite idx_head. apply RuneStart_continuation. }
  rewrite R1, R0. clear R1 R0.
  unfold utf8.DecodeRuneInString.
  cbn [String.length]. change (S (String.length t) <? 1) with false. cbv iota.
  generalize (idx (String c0 t) 0); intros x0.
  generalize (idx (String c0 t) 1); intros x1.
  generalize (idx (String c0 t) 2); intros x2.
  generalize (idx (String c0 t) 3); intros x3.
  unfold utf8.first;
    repeat match goal with
           | |- context [if (x0 <? ?k)%Z then _ else _] =>
               destruct (x0 <? k)%Z eqn:?
           | |- context [if (x0 =? ?k)%Z then _ else _] =>
               destruct (x0 =? k)%Z eqn:?
           end;
    cbn [utf8.as_ utf8.xx utf8.s1 utf8.s2 utf8.s3 utf8.s4 utf8.s5 utf8.s6
         utf8.s7];
    cbn -[Z.of_nat idx String.length Z.ltb Z.leb Nat.ltb Nat.leb];
    repeat match goal with
           | |- context [if ?b then _ else _] => destruct b eqn:?
           end;
    intros H; inversion H; subst; clear H; bools;
    unfold utf8.as_, utf8.xx, utf8.s1, utf8.s2, utf8.s3, utf8.s4, utf8.s5,
      utf8.s6, utf8.s7, utf8.RuneSelf, utf8.locb, utf8.hicb in *;
    cbn in *; repeat split; intros; try reflexivity; try lia.
Qed.

Lemma str_drop_str_take (i j : nat) (u : string) :
  str_drop i (str_take j u) = str_take (j - i) (str_drop i u).
Proof.
  revert j u; induction i as [|i IH]; intros j u.
  - now rewrite Nat.sub_0_r.
  - destruct j as [|j]; [now destruct (str_drop (S i) u)|].
    destruct u as [|c t]; [cbn; now destruct (j - i)|]. cbn. apply IH.
Qed.

(** The three ways [DecodeLastRuneInString] reads the last rune: a byte
    below [RuneSelf]; a rune of two bytes or more that ends the string; a
    byte that is not below [RuneSelf] and is not the end of such a rune. *)
Lemma DecodeLastRuneInString_paths (s : string) (r : Z) (size : nat) :
  s <> EmptyString ->
  utf8.DecodeLastRuneInString s = (r, size) ->
  (size = 1 /\ r = idx s (Z.of_nat (String.length s - 1))
   /\ (r < utf8.RuneSelf)%Z)
  \/ (2 <= size <= String.length s
      /\ utf8.DecodeRuneInString (str_drop (String.length s - size) s)
         = (r, size))
  \/ (size = 1 /\ r = utf8.RuneError
      /\ (utf8.RuneSelf <= idx s (Z.of_nat (String.length s - 1)))%Z).
Proof.
  intros N. unfold utf8.DecodeLastRuneInString.
  assert (L : 1 <= String.length s) by (destruct s; cbn; [congruence | lia]).
  destruct (String.length s =? 0) eqn:E0; [apply Nat.eqb_eq in E0; lia|].
  replace (Z.of_nat (String.length s) - 1)%Z
    with (Z.of_nat (String.length s - 1)) by lia.
  destruct (idx s (Z.of_nat (String.length s - 1)) <? utf8.RuneSelf)%Z eqn:E1.
  { apply Z.ltb_lt in E1. intros H; inversion H; subst. left. auto. }
  apply Z.ltb_ge in E1.
  set (lim := Z.max 0 (Z.of_nat (String.length s) - utf8.UTFMax)).
  pose proof (scanBack_le (Z.to_nat utf8.UTFMax) s
                (Z.of_nat (String.length s) - 2) lim) as Hs.
  set (z := utf8.scanBack (Z.to_nat utf8.UTFMax) s
              (Z.of_nat (String.length s) - 2) lim) in *.
  set (start := Z.to_nat (Z.max 0 z)).
  assert (Hstart : start < String.length s) by (subst start; lia).
  destruct (utf8.DecodeRuneInString (str_drop start s)) as [r' size'] eqn:D.
  destruct (start + size' =? String.length s) eqn:E.
  - apply Nat.eqb_eq in E. intros H; inversion H; subst r' size'.
    destruct (Nat.le_gt_cases 2 size) as [S2|S1].
    + right. left. split; [lia|].
      now replace (String.length s - size) with start by lia.
    + right. right.
      assert (size = 1) by lia. subst size.
      assert (Es : start = String.length s - 1) by lia.
      split; [reflexivity|]. split; [|exact E1].
      destruct (DecodeRuneInString_bytes _ _ _ D) as (_ & B & _).
      apply B; [reflexivity|].
      change 0%Z with (Z.of_nat 0). rewrite idx_str_drop, Nat.add_0_r.
      now rewrite Es.
  - intros H; inversion H; subst. right. right. auto.
Qed.

(** What is left of a string once nothing more can be trimmed on the
    right. *)
Lemma TrimRightFunc_fix (f : Z -> bool) (t : string) (r : Z) (size : nat) :
  t <> EmptyString ->
  utf8.DecodeLastRuneInString t = (r, size) -> f r = false ->
  strings.TrimRightFunc t f = t.
Proof.
  intros N D F. unfold strings.TrimRightFunc, strings.lastIndexFunc.
  assert (L : 1 <= String.length t) by (destruct t; cbn; [congruence | lia]).
  destruct (String.length t) as [|n] eqn:El; [lia|].
  cbn [strings.lastIndexFuncFrom Nat.eqb].
  rewrite str_take_all by lia. rewrite D, F. cbn [Bool.eqb].
  rewrite <- El in *. clear n El.
  destruct (DecodeLastRuneInString_paths t r size N D)
    as [(S1 & R & A) | [(S2 & B) | (S1 & R & A)]].
  - subst size. rewrite R in A. apply Z.leb_gt in A. rewrite A.
    apply str_take_all. lia.
  - destruct (utf8.RuneSelf <=? idx t (Z.of_nat (String.length t - size)))%Z
      eqn:A.
    + rewrite B. cbn [snd]. apply str_take_all. lia.
    + exfalso. apply Z.leb_gt in A.
      destruct (get_in_range (String.length t - size) t ltac:(lia)) as [c G].
      destruct (str_drop_get _ _ _ G) as [t' Et].
      rewrite idx_nat, G in A.
      rewrite Et, (DecodeRuneInString_ascii c t' A) in B.
      inversion B. lia.
  - subst size. apply Z.leb_le in A. rewrite A.
    destruct (utf8.DecodeRuneInString (str_drop (String.length t - 1) t))
      as [r' w] eqn:Dw.
    destruct (DecodeRuneInString_shape _ _ _ Dw) as [[Z _] | [Hw _]].
    + pose proof (length_str_drop (String.length t - 1) t) as Ld.
      rewrite Z in Ld. cbn in Ld. lia.
    + cbn [snd]. apply str_take_all. lia.
Qed.


(** A last rune other than [RuneError] starts at a byte that starts a
    rune. *)
Lemma DecodeLastRuneInString_RuneStart (s : string) (r : Z) (size : nat) :
  s <> EmptyString ->
  utf8.DecodeLastRuneInString s = (r, size) ->
  r <> utf8.RuneError ->
  utf8.RuneStart (idx s (Z.of_nat (String.length s - size))) = true.
Proof.
  intros N D R.
  assert (L : 1 <= String.length s) by (destruct s; cbn; [congruence | lia]).
  destruct (DecodeLastRuneInString_paths s r size N D)
    as [(S1 & E & A) | [(S2 & B) | (S1 & E & A)]].
  - subst size. rewrite <- E.
    destruct (get_in_range (String.length s - 1) s ltac:(lia)) as [c G].
    rewrite idx_nat, G in E. subst r. now apply RuneStart_ascii.
  - destruct (DecodeRuneInString_bytes _ _ _ B) as (_ & _ & K).
    change 0%Z with (Z.of_nat 0) in K. rewrite idx_str_drop, Nat.add_0_r in K.
    destruct (utf8.RuneStart (idx s (Z.of_nat (String.length s - size))));
      [reflexivity | now elim R; apply K].
  - congruence.
Qed.

(** As [lastIndexFuncFrom_found], for an [f] that fails [RuneError]: the
    prefix the rune found ends is the whole string or ends before a byte
    that starts a rune. *)
Lemma lastIndexFuncFrom_found_start (f : Z -> bool) (s : string) :
  f utf8.RuneError = false ->
  forall fuel j0 i,
    j0 <= String.length s ->
    (j0 = String.length s \/ utf8.RuneStart (idx s (Z.of_nat j0)) = true) ->
    strings.lastIndexFuncFrom fuel s j0 f false = Some i ->
    exists j r size,
      1 <= j <= j0
      /\ (j = String.length s \/ utf8.RuneStart (idx s (Z.of_nat j)) = true)
      /\ utf8.DecodeLastRuneInString (str_take j s) = (r, size)
      /\ i = j - size /\ f r = false.
Proof.
  intros Hf. induction fuel as [|fuel IH]; intros j0 i L0 S0 H; [discriminate|].
  cbn [strings.lastIndexFuncFrom] in H.
  destruct (j0 =? 0) eqn:E0; [discriminate|]. apply Nat.eqb_neq in E0.
  destruct (utf8.DecodeLastRuneInString (str_take j0 s)) as [r size] eqn:D.
  destruct (f r) eqn:E; cbn [Bool.eqb] in H.
  - assert (Lj : String.length (str_take j0 s) = j0)
      by (apply str_take_length; lia).
    assert (Nj : str_take j0 s <> EmptyString).
    { intros Z. rewrite Z in Lj. cbn in Lj. lia. }
    destruct (DecodeLastRuneInString_shape _ _ _ Nj D) as [Hsize _].
    rewrite Lj in Hsize.
    assert (R : r <> utf8.RuneError) by congruence.
    pose proof (DecodeLastRuneInString_RuneStart _ _ _ Nj D R) as S1.
    rewrite Lj, idx_str_take in S1 by lia.
    destruct (IH (j0 - size) i ltac:(lia) (or_intror S1) H)
      as (j & r' & size' & Hj & Sj & D' & -> & F').
    exists j, r', size'. repeat split; try assumption; lia.
  - inversion H; subst. exists j0, r, size.
    repeat split; try assumption; lia.
Qed.

Lemma TrimRightFunc_is_take (f : Z -> bool) (u : string) :
  exists m, strings.TrimRightFunc u f = str_take m u.
Proof.
  unfold strings.TrimRightFunc.
  destruct (strings.lastIndexFunc u f false) as [i|]; [|now exists 0].
  destruct (utf8.RuneSelf <=? _)%Z; eexists; reflexivity.
Qed.

(** Where [TrimRightFunc] cuts: behind the rune found, which is the end of
    the prefix [lastIndexFunc] stopped at. *)
Lemma TrimRightFunc_branch (u : string) (j : nat) (r : Z) (size : nat) :
  1 <= j <= String.length u ->
  (j = String.length u \/ utf8.RuneStart (idx u (Z.of_nat j)) = true) ->
  utf8.DecodeLastRuneInString (str_take j u) = (r, size) ->
  (if (utf8.RuneSelf <=? idx u (Z.of_nat (j - size)))%Z
   then str_take (j - size
                  + snd (utf8.DecodeRuneInString (str_drop (j - size) u))) u
   else str_take (j - size + 1) u) = str_take j u.
Proof.
  intros Hj Sj D.
  assert (Lj : String.length (str_take j u) = j)
    by (apply str_take_length; lia).
  assert (Nj : str_take j u <> EmptyString).
  { intros Z. rewrite Z in Lj. cbn in Lj. lia. }
  destruct (DecodeLastRuneInString_paths _ r size Nj D)
    as [(S1 & E & A) | [(S2 & B) | (S1 & E & A)]]; rewrite Lj in *.
  - subst size. rewrite E in A. rewrite idx_str_take in A by lia.
    apply Z.leb_gt in A. rewrite A. f_equal. lia.
  - rewrite str_drop_str_take in B.
    replace (j - (j - size)) with size in B by lia.
    apply DecodeRuneInString_extend in B; [|lia].
    rewrite B. cbn [snd].
    destruct (utf8.RuneSelf <=? idx u (Z.of_nat (j - size)))%Z eqn:A.
    + f_equal. lia.
    + exfalso. apply Z.leb_gt in A.
      destruct (get_in_range (j - size) u ltac:(lia)) as [c G].
      destruct (str_drop_get _ _ _ G) as [t' Et].
      rewrite idx_nat, G in A.
      rewrite Et, (DecodeRuneInString_ascii c t' A) in B.
      inversion B. lia.
  - subst size. rewrite idx_str_take in A by lia.
    apply Z.leb_le in A. rewrite A.
    destruct (utf8.DecodeRuneInString (str_drop (j - 1) u)) as [r' w] eqn:Dw.
    cbn [snd].
    destruct (DecodeRuneInString_shape _ _ _ Dw) as [[Z _] | [Hw _]].
    { pose proof (length_str_drop (j - 1) u) as Ld. rewrite Z in Ld.
      cbn in Ld. lia. }
    rewrite length_str_drop in Hw.
    assert (w = 1 \/ 2 <= w) as [->|W2] by lia; [f_equal; lia|].
    exfalso.
    destruct (DecodeRuneInString_bytes _ _ _ Dw) as (K & _ & _).
    specialize (K W2). change 1%Z with (Z.of_nat 1) in K.
    rewrite idx_str_drop in K. replace (j - 1 + 1) with j in K by lia.
    destruct (RuneStart_idx _ _ K) as [_ Lt].
    destruct Sj as [Sj|Sj]; [lia | congruence].
Qed.

(** What trimming on the right leaves is empty or ends with a rune that
    fails [f]. *)
Lemma TrimRightFunc_last (f : Z -> bool) (u : string) :
  f utf8.RuneError = false ->
  strings.TrimRightFunc u f = EmptyString
  \/ exists r size,
       utf8.DecodeLastRuneInString (strings.TrimRightFunc u f) = (r, size)
       /\ f r = false.
Proof.
  intros Hf. unfold strings.TrimRightFunc, strings.lastIndexFunc.
  destruct (strings.lastIndexFuncFrom _ u _ f false) as [i|] eqn:I;
    [|left; now destruct u].
  right.
  destruct (lastIndexFuncFrom_found_start f u Hf _ _ _ (le_n _)
              (or_introl eq_refl) I)
    as (j & r & size & Hj & Sj & D & -> & F).
  exists r, size.
  rewrite (TrimRightFunc_branch u j r size Hj Sj D). now split.
Qed.

(** Trimming what trimming left changes nothing. *)
Lemma TrimSpace_idempotent (s : string) :
  strings.TrimSpace (strings.TrimSpace s) = strings.TrimSpace s.
Proof.
  change (strings.TrimSpace s)
    with (strings.TrimRightFunc (strings.TrimLeftFunc s unicode.IsSpace)
            unicode.IsSpace).
  remember (strings.TrimLeftFunc s unicode.IsSpace) as u eqn:Eu.
  remember (strings.TrimRightFunc u unicode.IsSpace) as t eqn:Et.
  assert (Hf : unicode.IsSpace utf8.RuneError = false) by reflexivity.
  destruct (String.eqb_spec t "") as [->|Nt]; [reflexivity|].
  (* the first rune of [t] is not white space *)
  assert (F1 : unicode.IsSpace (fst (utf8.DecodeRuneInString t)) = false).
  { destruct (TrimRightFunc_is_take unicode.IsSpace u) as [m Em].
    rewrite <- Et in Em.
    assert (Hm : 1 <= m).
    { destruct m; [|lia]. rewrite Em in Nt. now elim Nt. }
    subst u. unfold strings.TrimLeftFunc, strings.indexFunc in *.
    destruct (strings.indexFuncFrom 0 s unicode.IsSpace false) as [i|] eqn:I.
    - apply indexFuncFrom_found in I.
      destruct (utf8.DecodeRuneInString (str_drop i s)) as [r0 w0] eqn:D.
      rewrite Em, (DecodeRuneInString_take _ m r0 w0 Hm D).
      cbn [fst] in I.
      destruct (w0 <=? m); cbn [fst]; [|exact Hf].
      destruct (unicode.IsSpace r0); [discriminate | reflexivity].
    - rewrite Em in Nt. destruct m; now elim Nt. }
  (* the last rune of [t] is not white space *)
  destruct (TrimRightFunc_last unicode.IsSpace u Hf) as [Z | (r & size & D & F)];
    [congruence|].
  rewrite <- Et in D.
  unfold strings.TrimSpace, strings.TrimFunc.
  assert (L : strings.TrimLeftFunc t unicode.IsSpace = t).
  { unfold strings.TrimLeftFunc, strings.indexFunc.
    destruct t as [|c t']; [congruence|]. cbn [strings.indexFuncFrom].
    destruct (utf8.DecodeRuneInString (String c t')) as [r1 w1].
    cbn [fst] in F1. rewrite F1. reflexivity. }
  rewrite L. now apply TrimRightFunc_fix with (r := r) (size := size).
Qed.

(** X14. In a record [NewBuildInfoFromOldString] returns without error,
    every recognized field is left as it is by [strings.TrimSpace]: it
    has no white space, in the sense of Unicode, at its start or at its
    end. *)
Theorem X14_fields_are_fixed_by_trimming
  (s : string) (r : version.BuildInfo) (key : string) :
  version.NewBuildInfoFromOldString s = (r, None) ->
  In key legacy.recognized ->
  strings.TrimSpace (legacy.field key r) = legacy.field key r.
Proof.
  unfold version.NewBuildInfoFromOldString. intros H K.
  apply parseLines_recordFrom in H. subst r.
  rewrite (field_recordFrom key _ _ K). unfold legacy.fieldFrom.
  destruct (legacy.lastValue key _) as [w|] eqn:L.
  - apply lastValue_In, entries_In in L.
    destruct L as (line & v & _ & _ & ->).
    apply TrimSpace_idempotent.
  - assert (E : legacy.field key version.BuildInfo_zero = EmptyString).
    { repeat (destruct K as [<-|K]; [reflexivity|]). destruct K. }
    rewrite E. reflexivity.
Qed.

Lemma X14_fields_are_fixed_by_trimming_witness :
  strings.TrimSpace
    (legacy.field "GitTag"
       (fst (version.NewBuildInfoFromOldString samples.colons)))
  = legacy.field "GitTag"
      (fst (version.NewBuildInfoFromOldString samples.colons)).
Proof.
  apply (X14_fields_are_fixed_by_trimming samples.colons _ "GitTag").
  - vm_compute. reflexivity.
  - vm_compute. tauto.
Defined.


(** ** The directory of the command *)

Lemma stripTrailingSeparators_behind (a b : string) :
  filepath.stripTrailingSeparators b <> EmptyString ->
  filepath.stripTrailingSeparators (a ++ b) =
  (a ++ filepath.stripTrailingSeparators b)%string.
Proof.
  intros N. induction a as [|c a IH]; [reflexivity|].
  cbn [append filepath.stripTrailingSeparators]. rewrite IH.
  destruct (a ++ filepath.stripTrailingSeparators b)%string eqn:E;
    [|reflexivity].
  destruct a; cbn in E; [congruence | discriminate].
Qed.

Lemma stripTrailingSeparators_empty (p : string) :
  filepath.stripTrailingSeparators p = EmptyString ->
  forall c, has_byte c p = true -> c = SLASH.
Proof.
  induction p as [|d t IH]; intros H c Hc; [discriminate|].
  cbn [filepath.stripTrailingSeparators] in H.
  destruct (filepath.stripTrailingSeparators t) eqn:E; [|discriminate].
  unfold filepath.IsPathSeparator, filepath.Separator in H.
  destruct (Ascii.eqb d SLASH) eqn:Ed; [|discriminate].
  apply Ascii.eqb_eq in Ed. subst d. cbn [has_byte] in Hc.
  destruct (Ascii.eqb SLASH c) eqn:Ec.
  - apply Ascii.eqb_eq in Ec. now subst c.
  - cbn [orb] in Hc. now apply IH.
Qed.

(** The last element of a path is that of the part behind any of its
    separators. *)
Lemma lastSeparator_behind (a q : string) :
  match filepath.lastSeparator (a ++ String SLASH q) with
  | Some i => str_drop (i + 1) (a ++ String SLASH q)
  | None => (a ++ String SLASH q)%string
  end =
  match filepath.lastSeparator q with
  | Some i => str_drop (i + 1) q
  | None => q
  end.
Proof.
  induction a as [|c a IH].
  - cbn [append filepath.lastSeparator].
    destruct (filepath.lastSeparator q) as [i|]; [reflexivity|].
    reflexivity.
  - cbn [append filepath.lastSeparator].
    destruct (filepath.lastSeparator (a ++ String SLASH q)) as [i|] eqn:E.
    + exact IH.
    + exfalso. clear IH. revert E. clear. induction a as [|d a IH]; cbn.
      * destruct (filepath.lastSeparator q); discriminate.
      * destruct (filepath.lastSeparator (a ++ String SLASH q));
          [discriminate | now intros _; apply IH].
Qed.

(** X15. The program name does not depend on the directory the command
    is given with: for a path that holds a byte other than the separator,
    [adjustCommand] returns the same name with any directory in front. *)
Theorem X15_program_name_ignores_directory (dir p : string) (c : ascii) :
  has_byte c p = true -> c <> SLASH ->
  version.adjustCommand (dir ++ String SLASH p) = version.adjustCommand p.
Proof.
  intros Hc Nc.
  assert (N : filepath.stripTrailingSeparators p <> EmptyString).
  { intros E. apply Nc. now apply (stripTrailingSeparators_empty p E). }
  assert (Np : p <> EmptyString) by (intros ->; discriminate).
  rewrite !adjustCommand_cases.
  destruct (dir ++ String SLASH p)%string eqn:Ed;
    [destruct dir; discriminate|].
  rewrite <- Ed. clear Ed. destruct p as [|d t] eqn:Ep; [congruence|].
  rewrite <- Ep in *. clear Ep d t.
  unfold filepath.Base.
  assert (E1 : ((dir ++ String SLASH p) =? "")%string = false)
    by (apply String.eqb_neq; destruct dir; discriminate).
  apply String.eqb_neq in Np. rewrite E1, Np.
  unfold filepath.VolumeName. cbn [String.length str_drop].
  replace (dir ++ String SLASH p)%string
    with ((dir ++ String SLASH "") ++ p)%string by (now rewrite append_assoc).
  rewrite (stripTrailingSeparators_behind _ p N).
  rewrite append_assoc. cbn [append].
  now rewrite lastSeparator_behind.
Qed.

Lemma X15_program_name_ignores_directory_witness :
  version.adjustCommand "/usr/local/bin/istioctl" =
  version.adjustCommand "bin/istioctl".
Proof.
  change "/usr/local/bin/istioctl"%string
    with ("/usr/local" ++ String SLASH "bin/istioctl")%string.
  apply (X15_program_name_ignores_directory "/usr/local" "bin/istioctl" "b").
  - reflexivity.
  - discriminate.
Defined.


(** ** What trimming takes away *)

Lemma str_take_drop (i : nat) (s : string) :
  (str_take i s ++ str_drop i s)%string = s.
Proof.
  revert s; induction i as [|i IH]; intros s; [reflexivity|].
  destruct s as [|c t]; [reflexivity|]. cbn. now rewrite IH.
Qed.

Lemma str_drop_str_drop (i k : nat) (s : string) :
  str_drop k (str_drop i s) = str_drop (i + k) s.
Proof.
  revert s; induction i as [|i IH]; intros s; [reflexivity|].
  destruct s as [|c t]; [now destruct k|]. cbn. apply IH.
Qed.

Lemma str_drop_S (i : nat) (s : string) (c : ascii) :
  String.get i s = Some c -> str_drop i s = String c (str_drop (S i) s).
Proof.
  revert s; induction i as [|i IH]; intros s G.
  - destruct s as [|d t]; [discriminate|]. cbn in G. now inversion G.
  - destruct s as [|d t]; [discriminate|]. cbn in *. now apply IH.
Qed.

Lemma indexFuncFrom_skip_le (f : Z -> bool) (truth : bool) (s : string) :
  forall skip i,
    strings.indexFuncFrom skip s f truth = Some i -> skip <= i.
Proof.
  induction s as [|c t IH]; intros skip i H; [discriminate|].
  cbn [strings.indexFuncFrom] in H. destruct skip as [|k]; [lia|].
  destruct (strings.indexFuncFrom k t f truth) as [i'|] eqn:R;
    [|discriminate].
  inversion H; subst. apply IH in R. lia.
Qed.

(** Before the rune [indexFunc] finds there is none like it. *)
Lemma indexFuncFrom_before (f : Z -> bool) (truth : bool) (s : string) :
  forall skip i,
    strings.indexFuncFrom skip s f truth = Some i ->
    strings.indexFuncFrom skip (str_take i s) f truth = None.
Proof.
  induction s as [|c t IH]; intros skip i H; [discriminate|].
  cbn [strings.indexFuncFrom] in H. destruct skip as [|k].
  - destruct (utf8.DecodeRuneInString (String c t)) as [r size] eqn:D.
    destruct (Bool.eqb (f r) truth) eqn:E.
    + inversion H; subst. reflexivity.
    + destruct (strings.indexFuncFrom (size - 1) t f truth) as [i'|] eqn:R;
        [|discriminate].
      inversion H; subst.
      pose proof (indexFuncFrom_skip_le _ _ _ _ _ R) as Hs.
      pose proof (DecodeRuneInString_take _ (S i') r size ltac:(lia) D) as T.
      assert (Es : (size <=? S i') = true) by (apply Nat.leb_le; lia).
      rewrite Es in T. cbn [str_take] in T |- *.
      cbn [strings.indexFuncFrom]. rewrite T, E.
      now rewrite (IH _ _ R).
  - destruct (strings.indexFuncFrom k t f truth) as [i'|] eqn:R;
      [|discriminate].
    inversion H; subst. cbn [str_take strings.indexFuncFrom].
    now rewrite (IH _ _ R).
Qed.

Lemma indexFuncFrom_skip_none (f : Z -> bool) (truth : bool) (s : string) :
  forall skip,
    skip <= String.length s ->
    strings.indexFuncFrom 0 (str_drop skip s) f truth = None ->
    strings.indexFuncFrom skip s f truth = None.
Proof.
  induction s as [|c t IH]; intros skip L H.
  - cbn in L. now replace skip with 0 by lia.
  - destruct skip as [|k]; [exact H|].
    cbn [strings.indexFuncFrom]. cbn in L, H.
    now rewrite (IH k ltac:(lia) H).
Qed.

(** The backward scan of [lastIndexFunc], for an [f] that fails
    [RuneError]: behind the prefix it stops at there is no rune that fails
    [f], and the prefix is the whole string or ends before a byte that
    starts a rune. *)
Lemma lastIndexFuncFrom_tail (f : Z -> bool) (s : string) :
  f utf8.RuneError = false ->
  forall fuel j0,
    j0 <= fuel -> j0 <= String.length s ->
    (j0 = String.length s \/ utf8.RuneStart (idx s (Z.of_nat j0)) = true) ->
    strings.indexFuncFrom 0 (str_drop j0 s) f false = None ->
    exists j,
      j <= j0
      /\ (j = String.length s \/ utf8.RuneStart (idx s (Z.of_nat j)) = true)
      /\ strings.indexFuncFrom 0 (str_drop j s) f false = None
      /\ match strings.lastIndexFuncFrom fuel s j0 f false with
         | Some i =>
             exists r size,
               1 <= j
               /\ utf8.DecodeLastRuneInString (str_take j s) = (r, size)
               /\ i = j - size /\ f r = false
         | None => j = 0
         end.
Proof.
  intros Hf. induction fuel as [|fuel IH]; intros j0 Lf L0 S0 P0.
  { exists j0. repeat split; try assumption; cbn; lia. }
  cbn [strings.lastIndexFuncFrom].
  destruct (j0 =? 0) eqn:E0.
  { apply Nat.eqb_eq in E0. exists j0. repeat split; assumption || lia. }
  apply Nat.eqb_neq in E0.
  destruct (utf8.DecodeLastRuneInString (str_take j0 s)) as [r size] eqn:D.
  destruct (f r) eqn:E; cbn [Bool.eqb].
  - assert (Lj : String.length (str_take j0 s) = j0)
      by (apply str_take_length; lia).
    assert (Nj : str_take j0 s <> EmptyString).
    { intros Z. rewrite Z in Lj. cbn in Lj. lia. }
    destruct (DecodeLastRuneInString_shape _ _ _ Nj D) as [Hsize _].
    rewrite Lj in Hsize.
    assert (R : r <> utf8.RuneError) by congruence.
    pose proof (DecodeLastRuneInString_RuneStart _ _ _ Nj D R) as S1.
    rewrite Lj, idx_str_take in S1 by lia.
    assert (P1 : strings.indexFuncFrom 0 (str_drop (j0 - size) s) f false
                 = None).
    { destruct (get_in_range (j0 - size) s ltac:(lia)) as [c G].
      rewrite (str_drop_S _ _ _ G). cbn [strings.indexFuncFrom].
      destruct (DecodeLastRuneInString_paths _ r size Nj D)
        as [(S2 & Er & A) | [(S2 & B) | (S2 & Er & A)]]; rewrite Lj in *.
      - subst size. rewrite idx_str_take, idx_nat, G in Er by lia.
        rewrite Er in A.
        rewrite (DecodeRuneInString_ascii c _ A), <- Er, E.
        cbn [Bool.eqb Nat.sub].
        replace (S (j0 - 1)) with j0 by lia. now rewrite P0.
      - rewrite str_drop_str_take in B.
        replace (j0 - (j0 - size)) with size in B by lia.
        apply DecodeRuneInString_extend in B; [|lia].
        rewrite (str_drop_S _ _ _ G) in B. rewrite B, E. cbn [Bool.eqb].
        rewrite indexFuncFrom_skip_none; [reflexivity | |].
        + rewrite length_str_drop. lia.
        + rewrite str_drop_str_drop.
          now replace (S (j0 - size) + (size - 1)) with j0 by lia.
      - congruence. }
    destruct (IH (j0 - size) ltac:(lia) ltac:(lia) (or_intror S1) P1)
      as (j & Hj & Sj & Pj & M).
    exists j. repeat split; try assumption; lia.
  - exists j0. repeat split; try assumption; [lia|].
    exists r, size. repeat split; try assumption; lia.
Qed.

(** Trimming on the right cuts the string before a part in which every
    rune satisfies [f]. *)
Lemma TrimRightFunc_split (f : Z -> bool) (u : string) :
  f utf8.RuneError = false ->
  exists j,
    strings.TrimRightFunc u f = str_take j u
    /\ strings.indexFuncFrom 0 (str_drop j u) f false = None.
Proof.
  intros Hf. unfold strings.TrimRightFunc, strings.lastIndexFunc.
  destruct (lastIndexFuncFrom_tail f u Hf (String.length u) (String.length u)
              (le_n _) (le_n _) (or_introl eq_refl))
    as (j & Hj & Sj & Pj & M).
  { assert (E : str_drop (String.length u) u = EmptyString).
    { pose proof (length_str_drop (String.length u) u) as L.
      destruct (str_drop (String.length u) u); [reflexivity | cbn in L; lia]. }
    now rewrite E. }
  exists j. split; [|exact Pj].
  destruct (strings.lastIndexFuncFrom _ u _ f false) as [i|].
  - destruct M as (r & size & H1 & D & -> & F).
    now apply (TrimRightFunc_branch u j r size).
  - now subst j.
Qed.

(** Trimming takes away white space only: the string is what trimming
    leaves, between two parts that trim to nothing. *)
Lemma TrimSpace_decompose (v : string) :
  exists pre post,
    v = (pre ++ strings.TrimSpace v ++ post)%string
    /\ strings.TrimSpace pre = EmptyString
    /\ strings.TrimSpace post = EmptyString.
Proof.
  assert (Hf : unicode.IsSpace utf8.RuneError = false) by reflexivity.
  assert (Z : forall x,
             strings.indexFuncFrom 0 x unicode.IsSpace false = None ->
             strings.TrimSpace x = EmptyString).
  { intros x H. unfold strings.TrimSpace, strings.TrimFunc,
      strings.TrimLeftFunc, strings.indexFunc. now rewrite H. }
  unfold strings.TrimSpace at 1. unfold strings.TrimFunc.
  destruct (TrimRightFunc_split unicode.IsSpace
              (strings.TrimLeftFunc v unicode.IsSpace) Hf) as (j & Ej & Pj).
  rewrite Ej. clear Ej.
  unfold strings.TrimLeftFunc, strings.indexFunc in *.
  destruct (strings.indexFuncFrom 0 v unicode.IsSpace false) as [i|] eqn:I.
  - exists (str_take i v), (str_drop j (str_drop i v)).
    split; [|split].
    + now rewrite (str_take_drop j), (str_take_drop i).
    + apply Z. now apply indexFuncFrom_before.
    + now apply Z.
  - exists v, EmptyString. split; [|split].
    + destruct j; cbn; now rewrite append_empty_r.
    + now apply Z.
    + reflexivity.
Qed.

(** X16. In a record [NewBuildInfoFromOldString] returns without error,
    a recognized field that is not empty stands in a line of the input,
    behind the key and the colon, with nothing but white space before it
    and after it: trimming takes nothing else away. *)
Theorem X16_fields_stand_in_the_input
  (s : string) (r : version.BuildInfo) (key : string) :
  version.NewBuildInfoFromOldString s = (r, None) ->
  In key legacy.recognized ->
  legacy.field key r <> EmptyString ->
  exists pre post,
    In (key ++ String COLON (pre ++ legacy.field key r ++ post))%string
       (strings.Split s (String LF ""))
    /\ strings.TrimSpace pre = EmptyString
    /\ strings.TrimSpace post = EmptyString.
Proof.
  unfold version.NewBuildInfoFromOldString. intros H K N.
  apply parseLines_recordFrom in H. subst r.
  rewrite (field_recordFrom key _ _ K) in *. unfold legacy.fieldFrom in *.
  destruct (legacy.lastValue key _) as [w|] eqn:L.
  - apply lastValue_In, entries_In in L.
    destruct L as (line & v & I & C & ->).
    destruct (TrimSpace_decompose v) as (pre & post & E & Tpre & Tpost).
    exists pre, post. split; [|now split].
    apply cut_some in C. destruct C as [-> _]. now rewrite <- E.
  - exfalso. apply N.
    repeat (destruct K as [<-|K]; [reflexivity|]). destruct K.
Qed.

Lemma X16_fields_stand_in_the_input_witness :
  exists pre post,
    In ("GitTag" ++ String COLON (pre ++ "1.0:rc1" ++ post))%string
       (strings.Split samples.colons (String LF ""))
    /\ strings.TrimSpace pre = EmptyString
    /\ strings.TrimSpace post = EmptyString.
Proof.
  apply (X16_fields_stand_in_the_input samples.colons
           (fst (version.NewBuildInfoFromOldString samples.colons)) "GitTag").
  - vm_compute. reflexivity.
  - vm_compute. tauto.
  - vm_compute. discriminate.
Defined.

(** * Line processing and the user agent, case by case *)

(** ** Line processing, byte by byte *)

Lemma solid_IsSpace (c : ascii) :
  text.solid c -> unicode.IsSpace (byte c) = false.
Proof.
  intros [H N].
  destruct c as [[] [] [] [] [] [] [] []];
    first [ reflexivity
          | exfalso; vm_compute in H; discriminate H
          | exfalso; apply N; unfold text.white, strings.asciiSpace;
            cbn [In]; tauto ].
Qed.

(** Trimming leaves a bare value as it is. *)
Lemma TrimSpace_bare (v : string) :
  text.bare v -> strings.TrimSpace v = v.
Proof.
  intros [->|(a & b & Fa & Lb & Sa & Sb)]; [reflexivity|].
  destruct v as [|c t]; [discriminate|]. cbn in Fa. inversion Fa; subst c.
  unfold strings.TrimSpace, strings.TrimFunc.
  rewrite (TrimLeftFunc_head _ a t (proj1 Sa)), (solid_IsSpace a Sa).
  rewrite lastByte_get in Lb by discriminate.
  assert (I : idx (String a t) (Z.of_nat (String.length (String a t) - 1))
              = byte b) by (now rewrite idx_nat, Lb).
  apply TrimRightFunc_fix with (r := byte b) (size := 1).
  - discriminate.
  - rewrite DecodeLastRuneInString_ascii_last; [now rewrite I | discriminate|].
    rewrite I. exact (proj1 Sb).
  - now apply solid_IsSpace.
Qed.

(** A key with a white-space byte is none of the recognized keys. *)
Lemma setField_white_key (k value : string) (res : version.BuildInfo)
  (c : ascii) :
  text.white c -> has_byte c k = true -> version.setField k value res = res.
Proof.
  intros W H. apply setField_unrecognized. intros K.
  repeat (destruct K as [<-|K];
          [unfold text.white, strings.asciiSpace in W; cbn [In] in W;
           repeat (destruct W as [<-|W]; [discriminate H|]); destruct W|]).
  destruct K.
Qed.

(** C5. [NewBuildInfoFromOldString] splits the input at the line feeds (the
    lines joined by line feeds are the input, and no line holds one) and
    runs its loop over the lines; a line that trims to nothing, and so a
    line of white-space bytes only, is skipped; any other line [k:v], [k]
    without a colon, is cut at its first colon, whatever colons [v] holds,
    and assigns the trimmed [v] under the key [k] as written: white-space
    bytes before and behind a value that starts and ends with a byte that
    is not white space are taken away and the value itself is assigned
    whole; a key that trimming would change, and so a key with a
    white-space byte, matches no field. *)
Theorem C5_line_processing :
  (forall s,
      strings.Join (strings.Split s (String LF "")) (String LF "") = s
      /\ Forall (fun l => has_byte LF l = false)
                (strings.Split s (String LF ""))
      /\ version.NewBuildInfoFromOldString s =
         version.parseLines (strings.Split s (String LF ""))
                            version.BuildInfo_zero)
  /\ (forall line lines res,
         strings.TrimSpace line = EmptyString ->
         version.parseLines (line :: lines) res =
         version.parseLines lines res)
  /\ (forall k v lines res,
         has_byte COLON k = false ->
         strings.TrimSpace (k ++ String COLON v) <> EmptyString ->
         version.parseLines ((k ++ String COLON v)%string :: lines) res =
         version.parseLines lines
           (version.setField k (strings.TrimSpace v) res))
  /\ (forall k value res,
         strings.TrimSpace k <> k -> version.setField k value res = res)
  /\ (forall line lines res,
         text.allWhite line ->
         version.parseLines (line :: lines) res =
         version.parseLines lines res)
  /\ (forall k ws1 v ws2 lines res,
         has_byte COLON k = false ->
         text.allWhite ws1 -> text.allWhite ws2 -> text.bare v ->
         version.parseLines
           ((k ++ String COLON (ws1 ++ v ++ ws2))%string :: lines) res =
         version.parseLines lines (version.setField k v res))
  /\ (forall k c value res,
         text.white c -> has_byte c k = true ->
         version.setField k value res = res).
Proof.
  split; [|split; [|split; [|split; [|split; [|split]]]]].
  - intros s. destruct (Split_Join LF s) as [J F]. repeat split; assumption.
  - intros line lines res B. apply parseLines_blank.
    unfold legacy.blank. now apply String.eqb_eq.
  - intros k v lines res K B. apply parseLines_entry.
    + unfold legacy.blank. now apply String.eqb_neq.
    + apply cut_some. now split.
  - exact setField_untrimmed.
  - intros line lines res W. apply parseLines_blank.
    unfold legacy.blank. apply String.eqb_eq.
    apply TrimSpace_ascii_spaces. intros c H. apply asciiSpace_IsSpace.
    now apply W.
  - intros k ws1 v ws2 lines res K W1 W2 B.
    rewrite (parseLines_entry _ lines res k (ws1 ++ v ++ ws2)).
    + rewrite (TrimSpace_white_before ws1 _ W1).
      rewrite (TrimSpace_white_after ws2 W2).
      now rewrite (TrimSpace_bare v B).
    + apply blank_colon, has_byte_entry.
    + apply cut_some. now split.
  - intros k c value res W H. now apply setField_white_key with (c := c).
Qed.

Lemma C5_line_processing_witness :
  version.parseLines
    ["  "; "GitTag:  1.0:rc1  "; " Version: 2"; "BuildStatus: Clean"]%string
    version.BuildInfo_zero
  = ({| version.Version := ""; version.GitRevision := "";
        version.GolangVersion := ""; version.BuildStatus := "Clean";
        version.GitTag := "1.0:rc1"; version.Vendor := "" |}, None).
Proof.
  destruct C5_line_processing
    as (_ & _ & Hentry & _ & Hwhite & Hvalue & Hkey).
  assert (Sp : text.allWhite "  ").
  { intros c H. cbn [has_byte] in H.
    destruct (Ascii.eqb " " c) eqn:E; [|cbn in H; discriminate].
    apply Ascii.eqb_eq in E. subst c. unfold text.white. cbn. tauto. }
  rewrite (Hwhite "  "%string) by exact Sp.
  change "GitTag:  1.0:rc1  "%string
    with ("GitTag" ++ String COLON ("  " ++ "1.0:rc1" ++ "  "))%string.
  rewrite (Hvalue "GitTag"%string "  "%string "1.0:rc1"%string "  "%string).
  2: reflexivity.
  2, 3: exact Sp.
  2:{ right. exists "1"%char, "1"%char.
      repeat split; try reflexivity; try (vm_compute; reflexivity);
        intros W; unfold text.white in W; cbn in W;
        repeat (destruct W as [W|W]; [discriminate|]); exact W. }
  change " Version: 2"%string with (" Version" ++ String COLON " 2")%string.
  rewrite (Hentry " Version"%string " 2"%string)
    by (vm_compute; solve [reflexivity | discriminate]).
  rewrite (Hkey " Version"%string " "%char)
    by (solve [ unfold text.white; cbn; tauto | reflexivity ]).
  change "BuildStatus: Clean"%string
    with ("BuildStatus" ++ String COLON " Clean")%string.
  rewrite (Hentry "BuildStatus"%string " Clean"%string)
    by (vm_compute; solve [reflexivity | discriminate]).
  vm_compute. reflexivity.
Defined.

(** ** The program name, path by path *)

Lemma separators_tail (c : ascii) (t : string) :
  text.separators (String c t) -> c = SLASH /\ text.separators t.
Proof.
  intros H. split.
  - apply H. cbn [has_byte]. now rewrite Ascii.eqb_refl.
  - intros d Hd. apply H. cbn [has_byte]. rewrite Hd. apply orb_true_r.
Qed.

(** Separators at the end of a path do not count. *)
Lemma stripTrailingSeparators_tail (tail : string) :
  text.separators tail ->
  forall x, filepath.stripTrailingSeparators (x ++ tail) =
            filepath.stripTrailingSeparators x.
Proof.
  induction tail as [|c t IH]; intros H x.
  - now rewrite append_empty_r.
  - destruct (separators_tail c t H) as [-> Ht].
    replace (x ++ String SLASH t)%string
      with ((x ++ String SLASH "") ++ t)%string
      by (now rewrite append_assoc).
    rewrite (IH Ht). apply stripTrailingSeparators_slash.
Qed.

Lemma Base_tail (x tail : string) :
  x <> EmptyString -> text.separators tail ->
  filepath.Base (x ++ tail) = filepath.Base x.
Proof.
  intros N H. unfold filepath.Base.
  rewrite (stripTrailingSeparators_tail tail H x).
  destruct x as [|c t]; [contradiction|reflexivity].
Qed.

Lemma Base_separators (p : string) :
  p <> EmptyString -> text.separators p ->
  filepath.Base p = String SLASH "".
Proof.
  intros N H. unfold filepath.Base.
  pose proof (stripTrailingSeparators_tail p H "") as E.
  cbn [append filepath.stripTrailingSeparators] in E. rewrite E.
  destruct p as [|c t]; [contradiction|reflexivity].
Qed.

(** A path is empty, or separators only, or a last element that is not
    empty and holds no separator, after a directory and a separator or at
    the start of the path, and before separators only. *)
Lemma path_shape (p : string) :
  p = EmptyString
  \/ (p <> EmptyString /\ text.separators p)
  \/ exists name tail,
       name <> EmptyString /\ has_byte SLASH name = false
       /\ text.separators tail
       /\ (p = (name ++ tail)%string
           \/ exists dir, p = (dir ++ String SLASH (name ++ tail))%string).
Proof.
  induction p as [|c t IH]; [now left|]. right.
  assert (S1 : forall s, text.separators s -> text.separators (String SLASH s)).
  { intros s Hs d Hd. cbn [has_byte] in Hd.
    destruct (Ascii.eqb SLASH d) eqn:E;
      [symmetry; now apply Ascii.eqb_eq|now apply Hs]. }
  assert (S0 : text.separators "") by (intros d Hd; discriminate).
  destruct (Ascii.eqb c SLASH) eqn:E.
  - apply Ascii.eqb_eq in E. subst c.
    destruct IH as [->|[[_ Hs]|(name & tail & N & H & Ht & [->|[dir ->]])]].
    + left. split; [discriminate|now apply S1].
    + left. split; [discriminate|now apply S1].
    + right. exists name, tail. repeat split; try assumption.
      right. now exists ""%string.
    + right. exists name, tail. repeat split; try assumption.
      right. now exists (String SLASH dir).
  - right.
    assert (Hc : has_byte SLASH (String c "") = false)
      by (cbn [has_byte]; now rewrite E).
    destruct IH as [->|[[_ Hs]|(name & tail & N & H & Ht & [->|[dir ->]])]].
    + exists (String c ""), ""%string.
      repeat split; [discriminate|assumption|assumption|now left].
    + exists (String c ""), t.
      repeat split; [discriminate|assumption|assumption|now left].
    + exists (String c name), tail.
      repeat split; [discriminate| |assumption|now left].
      cbn [has_byte]. now rewrite E, H.
    + exists name, tail. repeat split; try assumption.
      right. now exists (String c dir).
Qed.

(** C6. For every record and every process with a first argument [argv0],
    on a system whose path separator is the slash ([GOOS] other than
    [windows], which is how [filepath.Base] is modelled), [UserAgent] is
    [<programName>/<version> (<GOOS>/<GOARCH>) istio/<vendor>].  The
    program name is never empty: it is ["unknown"] when [argv0] is empty
    and the base of [argv0] otherwise, that is, the last element [name] of
    [dir/name] or of [name], whatever separators follow it, and a single
    separator when [argv0] holds separators only; every [argv0] is of one
    of these forms. *)
Theorem C6_UserAgent_layout
  (b : version.BuildInfo) (p : version.Process)
  (argv0 : string) (rest : list string) :
  version.Args p = argv0 :: rest ->
  version.GOOS p <> "windows"%string ->
  version.BuildInfo_UserAgent b p =
    Some (version.adjustCommand argv0 ++ "/" ++ version.Version b ++ " ("
          ++ version.GOOS p ++ "/" ++ version.GOARCH p ++ ") istio/"
          ++ version.Vendor b)%string
  /\ version.adjustCommand argv0 <> EmptyString
  /\ (argv0 = EmptyString -> version.adjustCommand argv0 = "unknown"%string)
  /\ (argv0 <> EmptyString ->
      version.adjustCommand argv0 = filepath.Base argv0)
  /\ (forall dir name tail,
         argv0 = (dir ++ String SLASH (name ++ tail))%string ->
         name <> EmptyString -> has_byte SLASH name = false ->
         text.separators tail ->
         version.adjustCommand argv0 = name)
  /\ (forall name tail,
         argv0 = (name ++ tail)%string ->
         name <> EmptyString -> has_byte SLASH name = false ->
         text.separators tail ->
         version.adjustCommand argv0 = name)
  /\ (argv0 <> EmptyString -> text.separators argv0 ->
      version.adjustCommand argv0 = String SLASH "")
  /\ (argv0 = EmptyString
      \/ (argv0 <> EmptyString /\ text.separators argv0)
      \/ exists name tail,
           name <> EmptyString /\ has_byte SLASH name = false
           /\ text.separators tail
           /\ (argv0 = (name ++ tail)%string
               \/ exists dir,
                    argv0 = (dir ++ String SLASH (name ++ tail))%string)).
Proof.
  intros A _.
  split; [|split; [|split; [|split; [|split; [|split; [|split]]]]]].
  - unfold version.BuildInfo_UserAgent. rewrite A.
    cbn [fmt.Sprintf Ascii.eqb Bool.eqb orb fmt.extra].
    now rewrite append_empty_r.
  - rewrite adjustCommand_cases. destruct argv0; [discriminate|].
    apply Base_not_empty.
  - now intros ->.
  - intros N. rewrite adjustCommand_cases. now destruct argv0.
  - intros dir name tail -> N H T. rewrite adjustCommand_cases.
    replace (dir ++ String SLASH (name ++ tail))%string
      with ((dir ++ String SLASH name) ++ tail)%string
      by (now rewrite append_assoc).
    rewrite Base_tail; [|destruct dir; discriminate|assumption].
    rewrite (Base_last_element dir name N H).
    destruct dir; [|reflexivity].
    cbn [append]. destruct tail; reflexivity.
  - intros name tail -> N H T. rewrite adjustCommand_cases.
    rewrite (Base_tail name tail N T), (Base_plain name N H).
    destruct name; [contradiction|reflexivity].
  - intros N T. rewrite adjustCommand_cases.
    rewrite (Base_separators argv0 N T). now destruct argv0.
  - apply path_shape.
Qed.

Lemma C6_UserAgent_layout_witness :
  version.BuildInfo_UserAgent (version.Info "go1.16") samples.istioctl =
    Some "istioctl/unknown (linux/amd64) istio/oss"%string
  /\ version.adjustCommand "/usr/bin/istioctl//" = "istioctl"%string
  /\ version.adjustCommand "istioctl/" = "istioctl"%string
  /\ version.adjustCommand "//" = "/"%string
  /\ version.adjustCommand "" = "unknown"%string.
Proof.
  assert (L : "linux"%string <> "windows"%string) by discriminate.
  assert (S1 : forall s, s = "/"%string \/ s = "//"%string ->
                         text.separators s).
  { intros s [->| ->] c H; cbn [has_byte] in H;
      repeat (destruct (Ascii.eqb "/" c) eqn:E;
              [symmetry; now apply Ascii.eqb_eq|cbn [orb] in H]);
      discriminate. }
  assert (S0 : text.separators "") by (intros c H; discriminate).
  split; [|split; [|split; [|split]]].
  - destruct (C6_UserAgent_layout (version.Info "go1.16") samples.istioctl
                "/usr/bin/istioctl" ["version"%string] eq_refl L)
      as (H & _ & _ & _ & Hn & _).
    rewrite H.
    rewrite (Hn "/usr/bin"%string "istioctl"%string ""%string eq_refl);
      [reflexivity | discriminate | reflexivity | exact S0].
  - destruct (C6_UserAgent_layout (version.Info "go1.16")
                {| version.Args := ["/usr/bin/istioctl//"%string];
                   version.GOOS := "linux"; version.GOARCH := "amd64" |}
                "/usr/bin/istioctl//" [] eq_refl L)
      as (_ & _ & _ & _ & Hn & _).
    apply (Hn "/usr/bin"%string "istioctl"%string "//"%string eq_refl);
      [discriminate | reflexivity | apply S1; now right].
  - destruct (C6_UserAgent_layout (version.Info "go1.16")
                {| version.Args := ["istioctl/"%string];
                   version.GOOS := "linux"; version.GOARCH := "amd64" |}
                "istioctl/" [] eq_refl L)
      as (_ & _ & _ & _ & _ & Hn & _).
    apply (Hn "istioctl"%string "/"%string eq_refl);
      [discriminate | reflexivity | apply S1; now left].
  - destruct (C6_UserAgent_layout (version.Info "go1.16")
                {| version.Args := ["//"%string];
                   version.GOOS := "linux"; version.GOARCH := "amd64" |}
                "//" [] eq_refl L)
      as (_ & _ & _ & _ & _ & _ & Hs & _).
    apply Hs; [discriminate | apply S1; now right].
  - destruct (C6_UserAgent_layout (version.Info "go1.16")
                {| version.Args := [""%string]; version.GOOS := "linux";
                   version.GOARCH := "amd64" |}
                "" [] eq_refl L) as (_ & _ & H & _).
    exact (H eq_refl).
Defined.
